(** * Telegram Desktop: the media preview overlay and the Linux platform shim

    A shallow embedding of

    - [Telegram/SourceFiles/ui/platform/linux/ui_platform_utility_linux.h]
    - [Telegram/SourceFiles/window/window_media_preview.cpp]

    The widget is a record of its member variables together with the
    few pieces of [QWidget] and controller state that its methods read
    back ([isHidden()], [width()], [height()], the gif-pause flag).  A
    method is a computation in a small state-and-failure monad over
    that record.  Calls into collaborators whose result the widget
    never reads back ([update()], [load()], ...) are appended to a call
    log, so that "does nothing" can be stated as "leaves the whole
    record, log included, as it was". *)

From Stdlib Require Import String ZArith List Bool Lia FunInd Recdef.
Import ListNotations.
Local Open Scope Z_scope.

(** ** Machine integers

    `int` is 32 bits wide.  Values are kept in [Z]; every arithmetic
    operator of the source is followed by the two's-complement wrap that
    the compiled code performs. *)

Definition int_min : Z := - 2 ^ 31.
Definition int_max : Z := 2 ^ 31 - 1.

Definition wrap (z : Z) : Z := (z + 2 ^ 31) mod 2 ^ 32 - 2 ^ 31.

Definition int_ok (z : Z) : Prop := int_min <= z <= int_max.

Definition int_add (a b : Z) : Z := wrap (a + b).
Definition int_sub (a b : Z) : Z := wrap (a - b).
Definition int_mul (a b : Z) : Z := wrap (a * b).

(** `a / b` truncates toward zero.  The divisors of the source are
    [cIntRetinaFactor()] and a width or height that [qMax] has already
    made at least 1. *)
Definition int_div (a b : Z) : Z := wrap (Z.quot a b).

Definition qMax (a b : Z) : Z := Z.max a b.

(** ** Qt value types *)

Record QSize : Type := mkQSize { width : Z; height : Z }.

(** `QSize()`: an invalid size, both sides -1. *)
Definition QSize_default : QSize := mkQSize (-1) (-1).

(** `QSize::isEmpty()`: either side is 0 or less. *)
Definition QSize_isEmpty (s : QSize) : bool :=
  (width s <? 1) || (height s <? 1).

Definition QSize_eqb (a b : QSize) : bool :=
  (width a =? width b) && (height a =? height b).

(** `QSize * int`. *)
Definition QSize_scale (s : QSize) (k : Z) : QSize :=
  mkQSize (int_mul (width s) k) (int_mul (height s) k).

Record QRect : Type := mkQRect { rx : Z; ry : Z; rw : Z; rh : Z }.

(** A pixmap or image is known by its pixel size and the handle of its
    shared data; the null one has no data and size 0 x 0. *)
Record QPixmap : Type := mkQPixmap { pm_width : Z; pm_height : Z; pm_data : Z }.

Definition QPixmap_null : QPixmap := mkQPixmap 0 0 0.

Definition QPixmap_size (p : QPixmap) : QSize := mkQSize (pm_width p) (pm_height p).

Record QImage : Type := mkQImage { img_width : Z; img_height : Z; img_data : Z }.

Definition QImage_null : QImage := mkQImage 0 0 0.

Definition QImage_isNull (i : QImage) : bool :=
  (img_width i =? 0) && (img_height i =? 0) && (img_data i =? 0).

Definition QImage_size (i : QImage) : QSize := mkQSize (img_width i) (img_height i).

(** ** The Linux platform utility header

    Every hook receives references to toolkit objects and returns
    [void]; what it could change is the state of those objects and of
    the window system, here an arbitrary type [World]. *)

Module Ui.
Module Platform.

Definition QPainterRef : Type := Z.
Definition QPaintEventPtr : Type := Z.
Definition QWidgetPtr : Type := Z.

Section Hooks.

Context {World : Type}.

Definition StartTranslucentPaint (p : QPainterRef) (e : QPaintEventPtr)
  (sigma : World) : World := sigma.

Definition InitOnTopPanel (panel : QWidgetPtr) (sigma : World) : World := sigma.

Definition DeInitOnTopPanel (panel : QWidgetPtr) (sigma : World) : World := sigma.

Definition ReInitOnTopPanel (panel : QWidgetPtr) (sigma : World) : World := sigma.

Definition UpdateOverlayed (widget : QWidgetPtr) (sigma : World) : World := sigma.

Definition ShowOverAll (widget : QWidgetPtr) (canFocus : bool)
  (sigma : World) : World := sigma.

Definition BringToBack (widget : QWidgetPtr) (sigma : World) : World := sigma.

End Hooks.

Definition UseMainQueueGeneric : bool := true.

End Platform.
End Ui.

(** ** Collaborators of the preview widget

    The objects the widget points to are owned elsewhere and change
    behind its back (a download finishes, a decoder delivers a frame).
    The widget sees them through their accessors only, so each is a
    record of what the accessors answer at present. *)

Definition EmojiPtr : Type := Z.
Definition FileOrigin : Type := Z.

Record Image : Type := mkImage
  { image_id : Z
  ; image_loaded : bool                 (* Image::loaded() *)
  }.

Record StickerData : Type := mkStickerData
  { alt : String.string
  ; animated : bool
  }.

Record DocumentData : Type := mkDocumentData
  { document_id : Z
  ; isAnimation : bool
  ; sticker : option StickerData        (* sticker(): null unless a sticker *)
  ; isVideoMessage : bool
  ; dimensions : QSize
  ; document_loaded : bool              (* loaded() *)
  ; getStickerLarge : option Image      (* null until the full image is there *)
  ; hasThumbnail : bool
  ; document_thumbnail : Image          (* thumbnail(): never null *)
  ; document_thumbnailInline : option Image
  }.

Record PhotoData : Type := mkPhotoData
  { photo_id : Z
  ; photo_width : Z
  ; photo_height : Z
  ; photo_loaded : bool
  ; large : Image
  ; photo_thumbnail : Image
  ; thumbnailSmall : Image
  ; photo_thumbnailInline : option Image
  }.

(** `Media::Clip::Reader` as seen through its accessors. *)
Record ClipReader : Type := mkClipReader
  { clip_id : Z
  ; clip_ready : bool
  ; clip_started : bool
  ; clip_width : Z
  ; clip_height : Z
  ; clip_error : bool                   (* state() == State::Error *)
  ; clip_currentDisplayed : bool
  }.

(** `Media::Clip::ReaderPointer`: null, the distinguished bad pointer,
    or a reader.  Its `operator bool` holds for a reader only. *)
Inductive ReaderPointer : Type :=
| ReaderNull
| ReaderBad
| ReaderValid (r : ClipReader).

Definition ReaderPointer_bool (p : ReaderPointer) : bool :=
  match p with ReaderValid _ => true | _ => false end.

Definition ReaderPointer_isBad (p : ReaderPointer) : bool :=
  match p with ReaderBad => true | _ => false end.

(** `Lottie::SinglePlayer` as seen through [ready()] and [frame()]. *)
Record SinglePlayer : Type := mkSinglePlayer
  { lottie_id : Z
  ; lottie_ready : bool
  ; lottie_frame : QImage
  }.

(** `Ui::Animations::Simple`: what the last [start] asked for, and
    whether the animation is still running. *)
Record Animation : Type := mkAnimation
  { animating : bool
  ; anim_from : Z
  ; anim_to : Z
  ; anim_duration : Z
  }.

Definition Animation_idle : Animation := mkAnimation false 0 0 0.

Definition Animation_start (from to duration : Z) : Animation :=
  mkAnimation true from to duration.

Definition Animation_finish (a : Animation) : Animation :=
  mkAnimation false (anim_from a) (anim_to a) (anim_duration a).

(** `Window::SessionController`: the MediaPreview gif-pause reason, and
    the answer of [isGifPausedAtLeastFor(GifPauseReason::MediaPreview)]. *)
Record SessionController : Type := mkSessionController
  { gifPauseMediaPreview : bool
  ; isGifPausedAtLeastFor_MediaPreview : bool
  }.

Inductive Notification : Type :=
| NotificationReinit
| NotificationRepaint.

Inductive CacheStatus : Type :=
| CacheNotLoaded
| CacheThumbLoaded
| CacheLoaded.

Definition CacheStatus_eqb (a b : CacheStatus) : bool :=
  match a, b with
  | CacheNotLoaded, CacheNotLoaded => true
  | CacheThumbLoaded, CacheThumbLoaded => true
  | CacheLoaded, CacheLoaded => true
  | _, _ => false
  end.

(** Calls whose effect lies wholly outside the widget. *)
Inductive Call : Type :=
| CallUpdate                                     (* update() *)
| CallUpdateRect (r : QRect)                     (* update(rect) *)
| CallDocumentAutomaticLoad (origin : FileOrigin)
| CallDocumentThumbnailLoad (origin : FileOrigin)
| CallPhotoLoad (origin : FileOrigin)
| CallPhotoThumbnailSmallLoad (origin : FileOrigin)
| CallGifSetAutoplay
| CallGifStart (w h : Z)
| CallLottieMarkFrameShown
| CallLottieSubscribe.

(** Style constants, settings and the pure services of other modules. *)
Record Env : Type := mkEnv
  { boxVerticalMargin : Z                        (* st::boxVerticalMargin *)
  ; maxStickerSize : Z                           (* st::maxStickerSize *)
  ; stickerPreviewDuration : Z                   (* st::stickerPreviewDuration *)
  ; cIntRetinaFactor : Z
  ; ConvertScale : Z -> Z                        (* style::ConvertScale *)
  ; GetSizeLarge : Z                             (* Ui::Emoji::GetSizeLarge() *)
  ; GetEmojiListFromSet : DocumentData -> option (list EmojiPtr)
  ; EmojiFind : String.string -> option EmojiPtr        (* Ui::Emoji::Find, null as None *)
  ; Image_pix : Image -> FileOrigin -> Z -> Z -> QPixmap
  ; Image_pixBlurred : Image -> FileOrigin -> Z -> Z -> QPixmap
  ; MakeReader : DocumentData -> ReaderPointer   (* Media::Clip::MakeReader *)
  ; Reader_current : ClipReader -> Z -> Z -> Z -> QPixmap
  ; crl_now : Z
  ; makeSinglePlayer : DocumentData -> QSize -> SinglePlayer
  }.

Definition kStickerPreviewEmojiLimit : Z := 10.

(** ** The widget

    The member variables of [Window::MediaPreviewWidget], then what its
    methods read from the [QWidget] base ([isHidden()], [width()] and
    [height()] as [size]) and the log of outgoing calls. *)

Record MediaPreviewWidget : Type := mkWidget
  { _controller : SessionController
  ; _a_shown : Animation
  ; _hiding : bool
  ; _origin : FileOrigin
  ; _document : option DocumentData
  ; _photo : option PhotoData
  ; _gif : ReaderPointer
  ; _lottie : option SinglePlayer
  ; _emojiSize : Z
  ; _emojiList : list EmojiPtr
  ; _cacheStatus : CacheStatus
  ; _cache : QPixmap
  ; _cachedSize : QSize
  ; isHidden : bool
  ; size : QSize
  ; calls : list Call
  }.

Definition set_controller (v : SessionController) (w : MediaPreviewWidget) : MediaPreviewWidget :=
  mkWidget v (_a_shown w) (_hiding w) (_origin w) (_document w) (_photo w)
    (_gif w) (_lottie w) (_emojiSize w) (_emojiList w) (_cacheStatus w)
    (_cache w) (_cachedSize w) (isHidden w) (size w) (calls w).

Definition set_a_shown (v : Animation) (w : MediaPreviewWidget) : MediaPreviewWidget :=
  mkWidget (_controller w) v (_hiding w) (_origin w) (_document w)
    (_photo w) (_gif w) (_lottie w) (_emojiSize w) (_emojiList w)
    (_cacheStatus w) (_cache w) (_cachedSize w) (isHidden w) (size w)
    (calls w).

Definition set_hiding (v : bool) (w : MediaPreviewWidget) : MediaPreviewWidget :=
  mkWidget (_controller w) (_a_shown w) v (_origin w) (_document w)
    (_photo w) (_gif w) (_lottie w) (_emojiSize w) (_emojiList w)
    (_cacheStatus w) (_cache w) (_cachedSize w) (isHidden w) (size w)
    (calls w).

Definition set_origin (v : FileOrigin) (w : MediaPreviewWidget) : MediaPreviewWidget :=
  mkWidget (_controller w) (_a_shown w) (_hiding w) v (_document w)
    (_photo w) (_gif w) (_lottie w) (_emojiSize w) (_emojiList w)
    (_cacheStatus w) (_cache w) (_cachedSize w) (isHidden w) (size w)
    (calls w).

Definition set_document (v : option DocumentData) (w : MediaPreviewWidget) : MediaPreviewWidget :=
  mkWidget (_controller w) (_a_shown w) (_hiding w) (_origin w) v (_photo w)
    (_gif w) (_lottie w) (_emojiSize w) (_emojiList w) (_cacheStatus w)
    (_cache w) (_cachedSize w) (isHidden w) (size w) (calls w).

Definition set_photo (v : option PhotoData) (w : MediaPreviewWidget) : MediaPreviewWidget :=
  mkWidget (_controller w) (_a_shown w) (_hiding w) (_origin w)
    (_document w) v (_gif w) (_lottie w) (_emojiSize w) (_emojiList w)
    (_cacheStatus w) (_cache w) (_cachedSize w) (isHidden w) (size w)
    (calls w).

Definition set_gif (v : ReaderPointer) (w : MediaPreviewWidget) : MediaPreviewWidget :=
  mkWidget (_controller w) (_a_shown w) (_hiding w) (_origin w)
    (_document w) (_photo w) v (_lottie w) (_emojiSize w) (_emojiList w)
    (_cacheStatus w) (_cache w) (_cachedSize w) (isHidden w) (size w)
    (calls w).

Definition set_lottie (v : option SinglePlayer) (w : MediaPreviewWidget) : MediaPreviewWidget :=
  mkWidget (_controller w) (_a_shown w) (_hiding w) (_origin w)
    (_document w) (_photo w) (_gif w) v (_emojiSize w) (_emojiList w)
    (_cacheStatus w) (_cache w) (_cachedSize w) (isHidden w) (size w)
    (calls w).

Definition set_emojiSize (v : Z) (w : MediaPreviewWidget) : MediaPreviewWidget :=
  mkWidget (_controller w) (_a_shown w) (_hiding w) (_origin w)
    (_document w) (_photo w) (_gif w) (_lottie w) v (_emojiList w)
    (_cacheStatus w) (_cache w) (_cachedSize w) (isHidden w) (size w)
    (calls w).

Definition set_emojiList (v : list EmojiPtr) (w : MediaPreviewWidget) : MediaPreviewWidget :=
  mkWidget (_controller w) (_a_shown w) (_hiding w) (_origin w)
    (_document w) (_photo w) (_gif w) (_lottie w) (_emojiSize w) v
    (_cacheStatus w) (_cache w) (_cachedSize w) (isHidden w) (size w)
    (calls w).

Definition set_cacheStatus (v : CacheStatus) (w : MediaPreviewWidget) : MediaPreviewWidget :=
  mkWidget (_controller w) (_a_shown w) (_hiding w) (_origin w)
    (_document w) (_photo w) (_gif w) (_lottie w) (_emojiSize w)
    (_emojiList w) v (_cache w) (_cachedSize w) (isHidden w) (size w)
    (calls w).

Definition set_cache (v : QPixmap) (w : MediaPreviewWidget) : MediaPreviewWidget :=
  mkWidget (_controller w) (_a_shown w) (_hiding w) (_origin w)
    (_document w) (_photo w) (_gif w) (_lottie w) (_emojiSize w)
    (_emojiList w) (_cacheStatus w) v (_cachedSize w) (isHidden w) (size w)
    (calls w).

Definition set_cachedSize (v : QSize) (w : MediaPreviewWidget) : MediaPreviewWidget :=
  mkWidget (_controller w) (_a_shown w) (_hiding w) (_origin w)
    (_document w) (_photo w) (_gif w) (_lottie w) (_emojiSize w)
    (_emojiList w) (_cacheStatus w) (_cache w) v (isHidden w) (size w)
    (calls w).

Definition set_isHidden (v : bool) (w : MediaPreviewWidget) : MediaPreviewWidget :=
  mkWidget (_controller w) (_a_shown w) (_hiding w) (_origin w)
    (_document w) (_photo w) (_gif w) (_lottie w) (_emojiSize w)
    (_emojiList w) (_cacheStatus w) (_cache w) (_cachedSize w) v (size w)
    (calls w).

Definition set_size (v : QSize) (w : MediaPreviewWidget) : MediaPreviewWidget :=
  mkWidget (_controller w) (_a_shown w) (_hiding w) (_origin w)
    (_document w) (_photo w) (_gif w) (_lottie w) (_emojiSize w)
    (_emojiList w) (_cacheStatus w) (_cache w) (_cachedSize w) (isHidden w)
    v (calls w).

Definition set_calls (v : list Call) (w : MediaPreviewWidget) : MediaPreviewWidget :=
  mkWidget (_controller w) (_a_shown w) (_hiding w) (_origin w)
    (_document w) (_photo w) (_gif w) (_lottie w) (_emojiSize w)
    (_emojiList w) (_cacheStatus w) (_cache w) (_cachedSize w) (isHidden w)
    (size w) v.

Definition log (c : Call) (w : MediaPreviewWidget) : MediaPreviewWidget :=
  set_calls (calls w ++ [c]) w.

(** ** State and failure

    A method maps the widget to a result and the widget after it, or to
    nothing where the C++ would go through a null pointer or fail an
    [Expects]. *)

Definition M (A : Type) : Type :=
  MediaPreviewWidget -> option (A * MediaPreviewWidget).

Definition ret {A : Type} (a : A) : M A := fun w => Some (a, w).

Definition bind {A B : Type} (m : M A) (k : A -> M B) : M B :=
  fun w => match m w with
           | Some (a, w1) => k a w1
           | None => None
           end.

Definition crash {A : Type} : M A := fun _ => None.

Definition gets {A : Type} (f : MediaPreviewWidget -> A) : M A :=
  fun w => Some (f w, w).

Definition modify (f : MediaPreviewWidget -> MediaPreviewWidget) : M unit :=
  fun w => Some (tt, f w).

Definition when (b : bool) (m : M unit) : M unit := if b then m else ret tt.

Declare Scope widget_scope.
Delimit Scope widget_scope with widget.

Notation "x <- c ;; k" := (bind c (fun x => k))
  (at level 61, c at next level, right associativity) : widget_scope.
Notation "c ;; k" := (bind c (fun _ => k))
  (at level 61, right associativity) : widget_scope.

Local Open Scope widget_scope.

(** The loop of [fillEmojiString]:
    `while (_emojiList.size() > kStickerPreviewEmojiLimit) _emojiList.pop_back();` *)

Function popBackToLimit (l : list EmojiPtr) {measure length l} : list EmojiPtr :=
  if kStickerPreviewEmojiLimit <? Z.of_nat (length l)
  then popBackToLimit (removelast l)
  else l.
Proof.
  intros l Hlong.
  destruct l as [|x l]; [discriminate |].
  rewrite <- (rev_involutive (x :: l)).
  destruct (rev (x :: l)) as [|y t] eqn:E.
  - apply (f_equal (@rev _)) in E. rewrite rev_involutive in E. discriminate.
  - simpl. rewrite removelast_last, length_app. simpl. lia.
Defined.

(** ** The methods of the widget *)

Section Methods.

Variable env : Env.

Definition update : M unit := modify (log CallUpdate).

Definition show : M unit := modify (set_isHidden false).

Definition hide : M unit := modify (set_isHidden true).

Definition enableGifPauseReason : M unit :=
  c <- gets _controller ;;
  modify (set_controller
            (mkSessionController true (isGifPausedAtLeastFor_MediaPreview c))).

Definition disableGifPauseReason : M unit :=
  c <- gets _controller ;;
  modify (set_controller
            (mkSessionController false (isGifPausedAtLeastFor_MediaPreview c))).

(** Lines 206-214 of [currentDimensions]: scale, then shrink into the
    box, first by width, then by height. *)
Definition scaled (result : QSize) : QSize :=
  mkQSize (qMax (ConvertScale env (width result)) 1)
          (qMax (ConvertScale env (height result)) 1).

Definition fitWidth (box result : QSize) : QSize :=
  if width box <? width result
  then mkQSize (width box)
               (qMax (int_div (int_mul (width box) (height result)) (width result)) 1)
  else result.

Definition fitHeight (box result : QSize) : QSize :=
  if height box <? height result
  then mkQSize (qMax (int_div (int_mul (height box) (width result)) (height result)) 1)
               (height box)
  else result.

Definition fitted (box result : QSize) : QSize :=
  fitHeight box (fitWidth box (scaled result)).

(** The box of a photo, line 194. *)
Definition photoBox (w : MediaPreviewWidget) : QSize :=
  mkQSize (int_sub (width (size w)) (int_mul 2 (boxVerticalMargin env)))
          (int_sub (height (size w)) (int_mul 2 (boxVerticalMargin env))).

(** The box of a document, lines 200-204. *)
Definition documentBox (d : DocumentData) : QSize :=
  match sticker d with
  | Some _ => mkQSize (maxStickerSize env) (maxStickerSize env)
  | None => mkQSize (int_mul 2 (maxStickerSize env)) (int_mul 2 (maxStickerSize env))
  end.

(** The size a document starts from, lines 196-199. *)
Definition documentSize (d : DocumentData) (gif : ReaderPointer) : QSize :=
  match gif with
  | ReaderValid r =>
      if clip_ready r then mkQSize (clip_width r) (clip_height r) else dimensions d
  | _ => dimensions d
  end.

Definition currentDimensions : M QSize :=
  cached <- gets _cachedSize ;;
  if negb (QSize_isEmpty cached) then ret cached else
  document <- gets _document ;;
  photo <- gets _photo ;;
  match document, photo with
  | None, None =>
      cache <- gets _cache ;;
      modify (set_cachedSize
                (mkQSize (int_div (pm_width cache) (cIntRetinaFactor env))
                         (int_div (pm_height cache) (cIntRetinaFactor env)))) ;;
      gets _cachedSize
  | _, Some p =>
      box <- gets photoBox ;;
      let result := fitted box (mkQSize (photo_width p) (photo_height p)) in
      modify (set_cachedSize result) ;;
      ret result
  | Some d, None =>
      gif <- gets _gif ;;
      ret (fitted (documentBox d) (documentSize d gif))
  end.

Definition updateArea : M QRect :=
  s <- currentDimensions ;;
  g <- gets size ;;
  ret (mkQRect (int_div (int_sub (width g) (width s)) 2)
               (int_div (int_sub (height g) (height s)) 2)
               (width s) (height s)).

Definition resetGifAndCache : M unit :=
  modify (set_lottie None) ;;
  modify (set_gif ReaderNull) ;;
  modify (set_cacheStatus CacheNotLoaded) ;;
  modify (set_cachedSize QSize_default).

Definition setupLottie : M unit :=
  document <- gets _document ;;
  match document with
  | None => crash                         (* Expects(_document != nullptr) *)
  | Some d =>
      s <- currentDimensions ;;
      modify (set_lottie
                (Some (makeSinglePlayer env d (QSize_scale s (cIntRetinaFactor env))))) ;;
      modify (log CallLottieSubscribe)
  end.

Definition lottieReady (l : option SinglePlayer) : bool :=
  match l with
  | Some player => lottie_ready player
  | None => false
  end.

Definition isSome {A : Type} (o : option A) : bool :=
  match o with Some _ => true | None => false end.

(** `_cache = image->pix(_origin, s.width(), s.height()); _cacheStatus = status;` *)
Definition cachePix (image : Image) (status : CacheStatus) : M unit :=
  s <- currentDimensions ;;
  origin <- gets _origin ;;
  modify (set_cache (Image_pix env image origin (width s) (height s))) ;;
  modify (set_cacheStatus status).

Definition cachePixBlurred (s : QSize) (image : Image) : M unit :=
  origin <- gets _origin ;;
  modify (set_cache (Image_pixBlurred env image origin (width s) (height s))) ;;
  modify (set_cacheStatus CacheThumbLoaded).

(** The sticker branch of [currentImage], lines 242-259. *)
Definition currentImage_sticker (d : DocumentData) (st : StickerData) : M QPixmap :=
  status <- gets _cacheStatus ;;
  if negb (CacheStatus_eqb status CacheLoaded) then
    lottie <- gets _lottie ;;
    when (animated st && negb (isSome lottie) && document_loaded d) setupLottie ;;
    lottie <- gets _lottie ;;
    if lottieReady lottie then ret QPixmap_null
    else match getStickerLarge d with
         | Some image =>
             cachePix image CacheLoaded ;;
             gets _cache
         | None =>
             status <- gets _cacheStatus ;;
             if negb (CacheStatus_eqb status CacheThumbLoaded)
                && hasThumbnail d
                && image_loaded (document_thumbnail d)
             then s <- currentDimensions ;;
                  cachePixBlurred s (document_thumbnail d) ;;
                  gets _cache
             else gets _cache
         end
  else gets _cache.

(** The branch of a document that is not a sticker, lines 261-288. *)
Definition currentImage_animation (d : DocumentData) : M QPixmap :=
  origin <- gets _origin ;;
  modify (log (CallDocumentAutomaticLoad origin)) ;;
  gif <- gets _gif ;;
  when (document_loaded d
        && negb (ReaderPointer_bool gif) && negb (ReaderPointer_isBad gif))
       (modify (set_gif (MakeReader env d)) ;;
        made <- gets _gif ;;
        when (ReaderPointer_bool made) (modify (log CallGifSetAutoplay))) ;;
  gif <- gets _gif ;;
  let thumb : M QPixmap :=
    status <- gets _cacheStatus ;;
    when (negb (CacheStatus_eqb status CacheThumbLoaded) && hasThumbnail d)
         (s <- currentDimensions ;;
          if image_loaded (document_thumbnail d)
          then cachePixBlurred s (document_thumbnail d)
          else match document_thumbnailInline d with
               | Some blurred => cachePixBlurred s (document_thumbnail d)
               | None => modify (log (CallDocumentThumbnailLoad origin))
               end) ;;
    gets _cache in
  match gif with
  | ReaderValid r =>
      if clip_started r then
        s <- currentDimensions ;;
        c <- gets _controller ;;
        let paused := isGifPausedAtLeastFor_MediaPreview c in
        ret (Reader_current env r (width s) (height s)
               (if paused then 0 else crl_now env))
      else thumb
  | _ => thumb
  end.

(** The photo branch, lines 291-314. *)
Definition currentImage_photo (p : PhotoData) : M QPixmap :=
  status <- gets _cacheStatus ;;
  when (negb (CacheStatus_eqb status CacheLoaded))
       (if photo_loaded p then cachePix (large p) CacheLoaded
        else
          origin <- gets _origin ;;
          modify (log (CallPhotoLoad origin)) ;;
          status <- gets _cacheStatus ;;
          when (negb (CacheStatus_eqb status CacheThumbLoaded))
               (s <- currentDimensions ;;
                if image_loaded (photo_thumbnail p)
                then cachePixBlurred s (photo_thumbnail p)
                else if image_loaded (thumbnailSmall p)
                then cachePixBlurred s (thumbnailSmall p)
                else match photo_thumbnailInline p with
                     | Some blurred => cachePixBlurred s blurred
                     | None => modify (log (CallPhotoThumbnailSmallLoad origin))
                     end)) ;;
  gets _cache.

Definition currentImage : M QPixmap :=
  document <- gets _document ;;
  photo <- gets _photo ;;
  match document, photo with
  | Some d, _ =>
      match sticker d with
      | Some st => currentImage_sticker d st
      | None => currentImage_animation d
      end
  | None, Some p => currentImage_photo p
  | None, None => gets _cache
  end.

Definition startShow : M unit :=
  modify (set_cache QPixmap_null) ;;
  hidden <- gets isHidden ;;
  a <- gets _a_shown ;;
  if hidden || animating a then
    when hidden (show ;; enableGifPauseReason) ;;
    modify (set_hiding false) ;;
    modify (set_a_shown (Animation_start 0 1 (stickerPreviewDuration env)))
  else update.

Definition hidePreview : M unit :=
  hidden <- gets isHidden ;;
  if hidden then ret tt else
  gif <- gets _gif ;;
  when (ReaderPointer_bool gif)
       (image <- currentImage ;; modify (set_cache image)) ;;
  modify (set_hiding true) ;;
  modify (set_a_shown (Animation_start 1 0 (stickerPreviewDuration env))) ;;
  modify (set_photo None) ;;
  modify (set_document None) ;;
  resetGifAndCache.

Definition fillEmojiString : M unit :=
  modify (set_emojiList []) ;;
  photo <- gets _photo ;;
  match photo with
  | Some _ => ret tt
  | None =>
      document <- gets _document ;;
      match document with
      | None => crash                     (* _document->sticker() on null *)
      | Some d =>
          match sticker d with
          | Some st =>
              match GetEmojiListFromSet env d with
              | Some list => modify (set_emojiList (popBackToLimit list))
              | None =>
                  match EmojiFind env (alt st) with
                  | Some emoji =>
                      l <- gets _emojiList ;;
                      modify (set_emojiList (l ++ [emoji]))
                  | None => ret tt
                  end
              end
          | None => ret tt
          end
      end
  end.

(** `showPreview(Data::FileOrigin, not_null<DocumentData*>)`; the
    argument cannot be null, so `!document` is false. *)
Definition showPreview_document (origin : FileOrigin) (document : DocumentData)
  : M unit :=
  if (negb (isAnimation document) && negb (isSome (sticker document)))
     || isVideoMessage document
  then hidePreview
  else
    startShow ;;
    modify (set_origin origin) ;;
    modify (set_photo None) ;;
    modify (set_document (Some document)) ;;
    fillEmojiString ;;
    resetGifAndCache.

(** `showPreview(Data::FileOrigin, not_null<PhotoData*>)`. *)
Definition showPreview_photo (origin : FileOrigin) (photo : PhotoData) : M unit :=
  startShow ;;
  modify (set_origin origin) ;;
  modify (set_photo (Some photo)) ;;
  modify (set_document None) ;;
  fillEmojiString ;;
  resetGifAndCache.

(** What [paintEvent] puts on the screen: nothing when it hides the
    widget, else the pixmap or the lottie frame, centred.  The
    opacity (a floating-point value) and the emoji row are left out. *)
Inductive Painted : Type :=
| PaintedNothing
| PaintedPixmap (x y : Z) (pixmap : QPixmap)
| PaintedImage (r : QRect) (image : QImage).

(** Lines 52-59: the lottie frame if the player is ready, else the
    pixmap of [currentImage]. *)
Definition paintEvent_source : M (QImage * QPixmap) :=
  lottie <- gets _lottie ;;
  image <- (if lottieReady lottie
            then modify (log CallLottieMarkFrameShown) ;;
                 ret (match lottie with
                      | Some player => lottie_frame player
                      | None => QImage_null
                      end)
            else ret QImage_null) ;;
  pixmap <- (if QImage_isNull image then currentImage else ret QPixmap_null) ;;
  ret (image, pixmap).

(** What is drawn, and where. *)
Definition paintEvent_draw (image : QImage) (pixmap : QPixmap) (g : QSize) : Painted :=
  let sz := if QImage_isNull image then QPixmap_size pixmap else QImage_size image in
  let w := int_div (width sz) (cIntRetinaFactor env) in
  let h := int_div (height sz) (cIntRetinaFactor env) in
  let x := int_div (int_sub (width g) w) 2 in
  let y := int_div (int_sub (height g) h) 2 in
  if QImage_isNull image
  then PaintedPixmap x y pixmap
  else PaintedImage (mkQRect x y w h) image.

Definition paintEvent : M Painted :=
  source <- paintEvent_source ;;
  a <- gets _a_shown ;;
  hiding <- gets _hiding ;;
  if negb (animating a) && hiding then
    hide ;;
    disableGifPauseReason ;;
    ret PaintedNothing
  else
    g <- gets size ;;
    ret (paintEvent_draw (fst source) (snd source) g).

Definition resizeEvent : M unit := update.

Definition clipCallback (notification : Notification) : M unit :=
  match notification with
  | NotificationReinit =>
      gif <- gets _gif ;;
      when (match gif with ReaderValid r => clip_error r | _ => false end)
           (modify (set_gif ReaderBad)) ;;
      gif <- gets _gif ;;
      when (match gif with
            | ReaderValid r => clip_ready r && negb (clip_started r)
            | _ => false
            end)
           (s <- currentDimensions ;;
            modify (log (CallGifStart (width s) (height s)))) ;;
      update
  | NotificationRepaint =>
      gif <- gets _gif ;;
      when (match gif with
            | ReaderValid r => negb (clip_currentDisplayed r)
            | _ => false
            end)
           (area <- updateArea ;;
            modify (log (CallUpdateRect area)))
  end.

(** The widget after its constructor.  The data members start from
    their default member initialisers (no item, no player, nothing
    cached, not hiding) and a new [QWidget] is hidden until [show()]. *)
Definition MediaPreviewWidget_new (controller : SessionController) (geometry : QSize)
  : MediaPreviewWidget :=
  {| _controller := controller
   ; _a_shown := Animation_idle
   ; _hiding := false
   ; _origin := 0
   ; _document := None
   ; _photo := None
   ; _gif := ReaderNull
   ; _lottie := None
   ; _emojiSize := int_div (GetSizeLarge env) (cIntRetinaFactor env)
   ; _emojiList := []
   ; _cacheStatus := CacheNotLoaded
   ; _cache := QPixmap_null
   ; _cachedSize := QSize_default
   ; isHidden := true
   ; size := geometry
   ; calls := []
  |}.

(** ** What can happen to the widget

    Its owner calls [showPreview] and [hidePreview]; the toolkit
    delivers paint and resize events; the animation, the clip reader,
    the lottie player and the downloader call back; and the objects
    the widget points to change state on their own.  No order is
    imposed on the events: what holds after every sequence of them
    holds after those the toolkit can produce. *)

Inductive Event : Type :=
| ShowDocument (origin : FileOrigin) (document : DocumentData)
| ShowPhoto (origin : FileOrigin) (photo : PhotoData)
| HidePreview
| Paint
| Resize (geometry : QSize)
| Clip (notification : Notification)
| DownloaderTaskFinished
| LottieInformation
| LottieDisplayFrameRequest
| AnimationStep
| AnimationFinished
| DocumentChanged (document : DocumentData)
| PhotoChanged (photo : PhotoData)
| ReaderChanged (reader : ClipReader)
| PlayerChanged (player : SinglePlayer).

Definition step (e : Event) : M unit :=
  match e with
  | ShowDocument origin document => showPreview_document origin document
  | ShowPhoto origin photo => showPreview_photo origin photo
  | HidePreview => hidePreview
  | Paint => paintEvent ;; ret tt
  | Resize geometry => modify (set_size geometry) ;; resizeEvent
  | Clip notification => clipCallback notification
  | DownloaderTaskFinished => update
  | LottieInformation => update
  | LottieDisplayFrameRequest =>
      area <- updateArea ;; modify (log (CallUpdateRect area))
  | AnimationStep => update
  | AnimationFinished =>
      a <- gets _a_shown ;;
      when (animating a) (modify (set_a_shown (Animation_finish a)) ;; update)
  | DocumentChanged document =>
      current <- gets _document ;;
      when (isSome current) (modify (set_document (Some document)))
  | PhotoChanged photo =>
      current <- gets _photo ;;
      when (isSome current) (modify (set_photo (Some photo)))
  | ReaderChanged reader =>
      gif <- gets _gif ;;
      when (ReaderPointer_bool gif) (modify (set_gif (ReaderValid reader)))
  | PlayerChanged player =>
      lottie <- gets _lottie ;;
      when (isSome lottie) (modify (set_lottie (Some player)))
  end.

Fixpoint run (events : list Event) : M unit :=
  match events with
  | [] => ret tt
  | e :: rest => step e ;; run rest
  end.

End Methods.

(** ** Concrete data

    One environment (scale 100%, retina factor 1, the style constants
    of the default theme) and a few items, for evaluating the methods. *)

Definition sampleEmojiSet : list EmojiPtr := [1; 2; 3; 4; 5; 6; 7; 8; 9; 10; 11; 12].

Definition sampleEnv : Env :=
  {| boxVerticalMargin := 8
   ; maxStickerSize := 256
   ; stickerPreviewDuration := 150
   ; cIntRetinaFactor := 1
   ; ConvertScale := fun v => v
   ; GetSizeLarge := 36
   ; GetEmojiListFromSet := fun d =>
       if document_id d =? 2 then Some sampleEmojiSet else None
   ; EmojiFind := fun s => if String.eqb s String.EmptyString then None else Some 100
   ; Image_pix := fun image origin w h => mkQPixmap w h (image_id image)
   ; Image_pixBlurred := fun image origin w h => mkQPixmap w h (- image_id image)
   ; MakeReader := fun d =>
       ReaderValid (mkClipReader (document_id d) false false 0 0 false false)
   ; Reader_current := fun r w h ms => mkQPixmap w h (clip_id r)
   ; crl_now := 1000
   ; makeSinglePlayer := fun d s => mkSinglePlayer (document_id d) false QImage_null
  |}.

Definition sampleController : SessionController := mkSessionController false false.

Definition sampleWidget : MediaPreviewWidget :=
  MediaPreviewWidget_new sampleEnv sampleController (mkQSize 1000 800).

Definition sampleThumb : Image := mkImage 7 true.

(** A static sticker, 512 x 512, thumbnail loaded, full image not yet. *)
Definition sampleSticker : DocumentData :=
  {| document_id := 1
   ; isAnimation := false
   ; sticker := Some (mkStickerData "s"%string false)
   ; isVideoMessage := false
   ; dimensions := mkQSize 512 512
   ; document_loaded := false
   ; getStickerLarge := None
   ; hasThumbnail := true
   ; document_thumbnail := sampleThumb
   ; document_thumbnailInline := None
  |}.

(** The same sticker after its thumbnail has been replaced. *)
Definition sampleStickerNewThumb : DocumentData :=
  {| document_id := 1
   ; isAnimation := false
   ; sticker := Some (mkStickerData "s"%string false)
   ; isVideoMessage := false
   ; dimensions := mkQSize 512 512
   ; document_loaded := false
   ; getStickerLarge := None
   ; hasThumbnail := true
   ; document_thumbnail := mkImage 8 true
   ; document_thumbnailInline := None
  |}.

(** A sticker of a set with twelve emoji. *)
Definition sampleSetSticker : DocumentData :=
  {| document_id := 2
   ; isAnimation := false
   ; sticker := Some (mkStickerData String.EmptyString false)
   ; isVideoMessage := false
   ; dimensions := mkQSize 512 300
   ; document_loaded := true
   ; getStickerLarge := Some (mkImage 9 true)
   ; hasThumbnail := true
   ; document_thumbnail := sampleThumb
   ; document_thumbnailInline := None
  |}.

(** A GIF-like animation, 1280 x 720. *)
Definition sampleAnimation : DocumentData :=
  {| document_id := 3
   ; isAnimation := true
   ; sticker := None
   ; isVideoMessage := false
   ; dimensions := mkQSize 1280 720
   ; document_loaded := false
   ; getStickerLarge := None
   ; hasThumbnail := true
   ; document_thumbnail := sampleThumb
   ; document_thumbnailInline := None
  |}.

(** A plain file: neither an animation nor a sticker. *)
Definition sampleFile : DocumentData :=
  {| document_id := 4
   ; isAnimation := false
   ; sticker := None
   ; isVideoMessage := false
   ; dimensions := mkQSize 0 0
   ; document_loaded := false
   ; getStickerLarge := None
   ; hasThumbnail := false
   ; document_thumbnail := mkImage 0 false
   ; document_thumbnailInline := None
  |}.

(** A photo, 2000 x 1000, fully loaded. *)
Definition samplePhoto : PhotoData :=
  {| photo_id := 5
   ; photo_width := 2000
   ; photo_height := 1000
   ; photo_loaded := true
   ; large := mkImage 10 true
   ; photo_thumbnail := mkImage 11 true
   ; thumbnailSmall := mkImage 12 true
   ; photo_thumbnailInline := None
  |}.

(** The widget after [m], when [m] goes through. *)
Definition after {A : Type} (m : M A) (w : MediaPreviewWidget) : MediaPreviewWidget :=
  match m w with
  | Some (_, w') => w'
  | None => w
  end.

(** The result of [m], when [m] goes through. *)
Definition result {A : Type} (m : M A) (w : MediaPreviewWidget) : option A :=
  match m w with
  | Some (a, _) => Some a
  | None => None
  end.

(** A photo previewed and painted in a 1000 x 800 widget that is then
    resized to 500 x 400. *)
Definition photoThenResized : MediaPreviewWidget :=
  after (run sampleEnv
           [ShowPhoto 1 samplePhoto; Paint; Resize (mkQSize 500 400)])
        sampleWidget.

(** A photo previewed in a widget of 10 x 10, narrower than its two
    margins of 8. *)
Definition photoInSmallWidget : MediaPreviewWidget :=
  after (run sampleEnv [Resize (mkQSize 10 10); ShowPhoto 1 samplePhoto])
        sampleWidget.

(** A widget that was hidden while a photo was set: the fade-out ended,
    a new photo was shown before the pending repaint, and the repaint
    hid the widget. *)
Definition hiddenWithPhoto : MediaPreviewWidget :=
  after (run sampleEnv
           [ShowPhoto 1 samplePhoto; HidePreview; AnimationFinished;
            ShowPhoto 2 samplePhoto; Paint])
        sampleWidget.

(** A sticker whose blurred thumbnail was cached at the first paint and
    whose thumbnail was replaced afterwards. *)
Definition stickerWithNewThumbnail : MediaPreviewWidget :=
  after (run sampleEnv
           [ShowDocument 1 sampleSticker; Paint;
            DocumentChanged sampleStickerNewThumb])
        sampleWidget.

(** A clip reader that is ready and has started, 640 x 360. *)
Definition sampleReader : ClipReader := mkClipReader 3 true true 640 360 false false.

(** A clip reader in the error state. *)
Definition sampleFailedReader : ClipReader :=
  mkClipReader 3 false false 0 0 true false.

(** The animation of [sampleAnimation], loaded. *)
Definition sampleLoadedAnimation : DocumentData :=
  {| document_id := 3
   ; isAnimation := true
   ; sticker := None
   ; isVideoMessage := false
   ; dimensions := mkQSize 1280 720
   ; document_loaded := true
   ; getStickerLarge := None
   ; hasThumbnail := true
   ; document_thumbnail := sampleThumb
   ; document_thumbnailInline := None
  |}.

(** An animation being previewed with its reader playing. *)
Definition playingAnimation : MediaPreviewWidget :=
  set_gif (ReaderValid sampleReader)
    (after (showPreview_document sampleEnv 1 sampleAnimation) sampleWidget).

(** A loaded animation being previewed whose reader has failed. *)
Definition failedAnimation : MediaPreviewWidget :=
  set_gif (ReaderValid sampleFailedReader)
    (after (showPreview_document sampleEnv 1 sampleLoadedAnimation) sampleWidget).

(** A sticker being previewed, fully shown, whose lottie player is
    ready with a frame of 256 x 256. *)
Definition lottieSticker : MediaPreviewWidget :=
  set_lottie (Some (mkSinglePlayer 1 true (mkQImage 256 256 77)))
    (after (run sampleEnv [ShowDocument 1 sampleSticker; AnimationFinished])
           sampleWidget).

(** A sticker with an emoji row being previewed, and the same after
    hidePreview once the fade-out has ended: still visible and hiding,
    the emoji list as it was. *)
Definition shownSetSticker : MediaPreviewWidget :=
  after (showPreview_document sampleEnv 1 sampleSetSticker) sampleWidget.

Definition fadedOutSticker : MediaPreviewWidget :=
  after (run sampleEnv
           [ShowDocument 1 sampleSetSticker; HidePreview; AnimationFinished])
        sampleWidget.

(** ** Vocabulary of the properties *)

(** The box that applies to the item being previewed: a photo takes
    precedence, as in [currentDimensions]. *)
Definition applicableBox (env : Env) (w : MediaPreviewWidget) : option QSize :=
  match _photo w, _document w with
  | Some _, _ => Some (photoBox env w)
  | None, Some d => Some (documentBox env d)
  | None, None => None
  end.

(** [s] fits inside [box] and has no side below 1. *)
Definition fitsInside (s box : QSize) : Prop :=
  (1 <= width s <= width box) /\ (1 <= height s <= height box).

(** Whatever the state of the widget, the size it reports fits the box
    of the item it previews. *)
Definition alwaysFits (env : Env) (w : MediaPreviewWidget) : Prop :=
  forall box s w',
    applicableBox env w = Some box ->
    currentDimensions env w = Some (s, w') ->
    fitsInside s box.

(** At most one of [_photo] and [_document] is set. *)
Definition atMostOneItem (w : MediaPreviewWidget) : Prop :=
  _photo w = None \/ _document w = None.

(** The fields that only [showPreview], [hidePreview], [paintEvent] and
    the toolkit write: everything but the caches, the players and the
    call log. *)
Definition sameShell (w w' : MediaPreviewWidget) : Prop :=
  _controller w' = _controller w /\ _a_shown w' = _a_shown w /\
  _hiding w' = _hiding w /\ _origin w' = _origin w /\
  _document w' = _document w /\ _photo w' = _photo w /\
  _emojiSize w' = _emojiSize w /\ _emojiList w' = _emojiList w /\
  isHidden w' = isHidden w /\ size w' = size w.

(** A document is shown by [showPreview] unless this holds. *)
Definition notPreviewable (document : DocumentData) : bool :=
  (negb (isAnimation document) && negb (isSome (sticker document)))
  || isVideoMessage document.

(** Besides the item, [currentDimensions] leaves alone the cached size
    of a document. *)
Definition quiet (w w' : MediaPreviewWidget) : Prop :=
  sameShell w w' /\
  (_photo w = None -> _document w <> None -> _cachedSize w' = _cachedSize w).

(** Total correctness: from [w], [m] goes through and its result and
    final state satisfy [Q]. *)
Definition runs {A : Type} (m : M A) (w : MediaPreviewWidget)
  (Q : A -> MediaPreviewWidget -> Prop) : Prop :=
  exists a w', m w = Some (a, w') /\ Q a w'.

(** The states the widget can be in: those that events lead to from a
    new widget. *)
Inductive reachable (env : Env) : MediaPreviewWidget -> Prop :=
| reachable_new (controller : SessionController) (geometry : QSize) :
    reachable env (MediaPreviewWidget_new env controller geometry)
| reachable_step (e : Event) (w w' : MediaPreviewWidget) :
    reachable env w -> step env e w = Some (tt, w') -> reachable env w'.

(** What holds of every reachable state. *)
Definition invariant (w : MediaPreviewWidget) : Prop :=
  atMostOneItem w /\
  (_document w <> None -> QSize_isEmpty (_cachedSize w) = true) /\
  (_hiding w = true -> anim_from (_a_shown w) = 1 /\ anim_to (_a_shown w) = 0).

(** The emoji row of an item: none for a photo or a document that is
    not a sticker; the first ten of the set's list; else the emoji of
    the alt text, if there is one. *)
Definition expectedEmoji (env : Env) (photo : option PhotoData)
  (document : option DocumentData) : list EmojiPtr :=
  match photo, document with
  | Some _, _ => []
  | None, Some d =>
      match sticker d with
      | Some st =>
          match GetEmojiListFromSet env d with
          | Some list => firstn (Z.to_nat kStickerPreviewEmojiLimit) list
          | None =>
              match EmojiFind env (alt st) with
              | Some emoji => [emoji]
              | None => []
              end
          end
      | None => []
      end
  | None, None => []
  end.

(** What [startShow] does to the visibility of the widget: on a hidden
    or animating widget the fade-in starts (and a hidden widget is shown
    and pauses the gifs); on a widget that is fully shown only a repaint
    is asked for. *)
Definition startShown (env : Env) (w w' : MediaPreviewWidget) : Prop :=
  isHidden w' = false /\
  ((isHidden w || animating (_a_shown w) = true /\
    _hiding w' = false /\
    _a_shown w' = Animation_start 0 1 (stickerPreviewDuration env) /\
    gifPauseMediaPreview (_controller w')
      = (isHidden w || gifPauseMediaPreview (_controller w)) /\
    calls w' = calls w)
   \/
   (isHidden w || animating (_a_shown w) = false /\
    _hiding w' = _hiding w /\ _a_shown w' = _a_shown w /\
    _controller w' = _controller w /\
    calls w' = calls w ++ [CallUpdate])).

(** A call of the document overload of [showPreview] ends with no item
    previewed. *)
Definition endsWithoutItem (env : Env) (origin : FileOrigin)
  (document : DocumentData) (w : MediaPreviewWidget) : Prop :=
  forall w', showPreview_document env origin document w = Some (tt, w') ->
             _photo w' = None /\ _document w' = None.

(** The document overload of [showPreview] sets one reference and nulls
    the other: afterwards _document is the document and _photo is
    null. *)
Definition setsDocumentOnly (env : Env) (origin : FileOrigin)
  (document : DocumentData) (w : MediaPreviewWidget) : Prop :=
  forall w', showPreview_document env origin document w = Some (tt, w') ->
             _document w' = Some document /\ _photo w' = None.

(** The size [currentDimensions] answers with in state [w]. *)
Definition dimensionsOf (env : Env) (w : MediaPreviewWidget) : QSize :=
  match currentDimensions env w with
  | Some (s, _) => s
  | None => QSize_default
  end.

(** The blurred thumbnail of document [d], at the present size. *)
Definition blurredThumbnail (env : Env) (w : MediaPreviewWidget)
  (d : DocumentData) : QPixmap :=
  Image_pixBlurred env (document_thumbnail d) (_origin w)
    (width (dimensionsOf env w)) (height (dimensionsOf env w)).

(** The sharp pixmap of [image], at the present size. *)
Definition sharpPixmap (env : Env) (w : MediaPreviewWidget)
  (image : Image) : QPixmap :=
  Image_pix env image (_origin w)
    (width (dimensionsOf env w)) (height (dimensionsOf env w)).

(** [currentImage] caches and returns the blurred thumbnail and marks
    the cache CacheThumbLoaded. *)
Definition cachesBlurredThumbnail (env : Env) (w : MediaPreviewWidget)
  (d : DocumentData) : Prop :=
  forall pixmap w',
    currentImage env w = Some (pixmap, w') ->
    pixmap = blurredThumbnail env w d /\
    _cache w' = blurredThumbnail env w d /\
    _cacheStatus w' = CacheThumbLoaded.

(** ** [paintEvent] with its emoji row

    Lines 82-96 of [paintEvent], which [Painted] leaves out.  The count
    of the emoji is a `size_t`, so the width of the row and the running
    left edge are computed in unsigned arithmetic, 64 bits wide on the
    Linux target; each `int` operand is converted to it, and the left
    edge is converted back to `int` where it is passed to
    [Ui::Emoji::Draw]. *)

Definition size_t_wrap (z : Z) : Z := z mod 2 ^ 64.

Definition size_t_add (a b : Z) : Z := size_t_wrap (a + b).
Definition size_t_sub (a b : Z) : Z := size_t_wrap (a - b).
Definition size_t_mul (a b : Z) : Z := size_t_wrap (a * b).

(** One call of `Ui::Emoji::Draw(p, emoji, size, x, y)`. *)
Record EmojiDraw : Type := mkEmojiDraw
  { draw_emoji : EmojiPtr
  ; draw_size : Z
  ; draw_x : Z
  ; draw_y : Z
  }.

(** The loop: draw at [emojiLeft], then advance it by
    `_emojiSize + st::stickerEmojiSkip`. *)
Fixpoint drawEmojiList (esize y advance : Z) (emojiLeft : Z)
  (emojiList : list EmojiPtr) : list EmojiDraw :=
  match emojiList with
  | [] => []
  | emoji :: rest =>
      mkEmojiDraw emoji esize (wrap emojiLeft) y
      :: drawEmojiList esize y advance
           (size_t_add emojiLeft (size_t_wrap advance)) rest
  end.

(** Lines 82-96, where [stickerEmojiSkip] is st::stickerEmojiSkip and
    [h] the local `h` of line 61. *)
Definition paintEvent_emoji (env : Env) (stickerEmojiSkip h : Z)
  (w : MediaPreviewWidget) : list EmojiDraw :=
  match _emojiList w with
  | [] => []
  | _ :: _ =>
      let emojiCount := size_t_wrap (Z.of_nat (length (_emojiList w))) in
      let emojiWidth :=
        size_t_add (size_t_mul emojiCount (size_t_wrap (_emojiSize w)))
                   (size_t_mul (size_t_sub emojiCount 1)
                               (size_t_wrap stickerEmojiSkip)) in
      let emojiLeft :=
        Z.div (size_t_sub (size_t_wrap (width (size w))) emojiWidth) 2 in
      drawEmojiList (GetSizeLarge env)
        (int_sub (int_div (int_sub (height (size w)) h) 2)
                 (int_mul (_emojiSize w) 2))
        (int_add (_emojiSize w) stickerEmojiSkip)
        emojiLeft (_emojiList w)
  end.

(** The local `h` of line 61: the height of what is drawn, divided by
    the retina factor. *)
Definition paintEvent_height (env : Env) (image : QImage) (pixmap : QPixmap) : Z :=
  let sz := if QImage_isNull image then QPixmap_size pixmap else QImage_size image in
  int_div (height sz) (cIntRetinaFactor env).

(** The whole of [paintEvent], lines 48-97: what [paintEvent] does and
    draws, and after the picture the emoji row.  A paint that hides the
    widget returns at line 67, before anything is drawn. *)
Definition paintEvent_withEmoji (env : Env) (stickerEmojiSkip : Z)
  : M (Painted * list EmojiDraw) :=
  source <- paintEvent_source env ;;
  a <- gets _a_shown ;;
  hiding <- gets _hiding ;;
  if negb (animating a) && hiding then
    hide ;;
    disableGifPauseReason ;;
    ret (PaintedNothing, [])
  else
    g <- gets size ;;
    row <- gets (paintEvent_emoji env stickerEmojiSkip
                   (paintEvent_height env (fst source) (snd source))) ;;
    ret (paintEvent_draw env (fst source) (snd source) g, row).

(** The top edge of what was painted. *)
Definition Painted_top (painted : Painted) : Z :=
  match painted with
  | PaintedNothing => 0
  | PaintedPixmap _ y _ => y
  | PaintedImage r _ => ry r
  end.

(** ** Further vocabulary *)

(** What else holds of every reachable state: a visible widget pauses
    the gifs; the emoji row is short; without a document there is no
    clip reader and no lottie player; without any item nothing is
    marked as cached. *)
Definition settled (w : MediaPreviewWidget) : Prop :=
  (isHidden w = false -> gifPauseMediaPreview (_controller w) = true) /\
  Z.of_nat (length (_emojiList w)) <= kStickerPreviewEmojiLimit /\
  (_document w = None -> _gif w = ReaderNull /\ _lottie w = None) /\
  (_document w = None -> _photo w = None -> _cacheStatus w = CacheNotLoaded).

(** The rank of a cache status: nothing, blurred thumbnail, sharp image. *)
Definition CacheStatus_rank (c : CacheStatus) : Z :=
  match c with
  | CacheNotLoaded => 0
  | CacheThumbLoaded => 1
  | CacheLoaded => 2
  end.

(** [r] is centred in a span of [total]: it starts at [start], is
    [extent] long, lies inside the span, and the space after it is the
    space before it or one more. *)
Definition centredIn (total start extent : Z) : Prop :=
  0 <= start /\ start + extent <= total /\
  0 <= (total - extent - start) - start <= 1.

(** The players and the cache status are written for a document only,
    the cache status for a photo as well. *)
Definition idle (w w' : MediaPreviewWidget) : Prop :=
  (_document w = None -> _gif w' = _gif w /\ _lottie w' = _lottie w) /\
  (_document w = None -> _photo w = None -> _cacheStatus w' = _cacheStatus w).

(** * Properties *)

(** ** Integer arithmetic *)

Lemma wrap_int_ok (z : Z) : int_ok (wrap z).
Proof.
  unfold int_ok, wrap, int_min, int_max.
  pose proof (Z.mod_pos_bound (z + 2 ^ 31) (2 ^ 32) ltac:(lia)). lia.
Qed.

Lemma wrap_small (z : Z) : int_ok z -> wrap z = z.
Proof.
  unfold int_ok, wrap, int_min, int_max. intros H.
  rewrite Z.mod_small by lia. lia.
Qed.

Lemma wrap_le_nonneg (z : Z) : 0 <= z -> wrap z <= z.
Proof.
  unfold wrap. intros H.
  pose proof (Z.mod_le (z + 2 ^ 31) (2 ^ 32) ltac:(lia) ltac:(lia)). lia.
Qed.

Lemma quot_int_ok (v h : Z) : int_ok v -> 1 <= h -> int_ok (Z.quot v h).
Proof.
  unfold int_ok, int_min, int_max. intros Hv Hh.
  destruct (Z_lt_le_dec v 0) as [Hneg | Hpos].
  - assert (E : Z.quot v h = - ((- v) / h)).
    { rewrite <- (Z.opp_involutive v) at 1.
      rewrite Z.quot_opp_l by lia.
      rewrite Z.quot_div_nonneg by lia. reflexivity. }
    rewrite E.
    pose proof (Z.div_le_upper_bound (- v) h (- v) ltac:(lia) ltac:(nia)).
    pose proof (Z.div_pos (- v) h ltac:(lia) ltac:(lia)). lia.
  - rewrite Z.quot_div_nonneg by lia.
    pose proof (Z.div_le_upper_bound v h v ltac:(lia) ltac:(nia)).
    pose proof (Z.div_pos v h ltac:(lia) ltac:(lia)). lia.
Qed.

(** `(b * w) / h` in `int` arithmetic never exceeds [w] when the side
    [h] being cut is longer than the side [b] of the box, also when the
    product wraps. *)
Lemma shrink_le (b w h : Z) :
  0 <= b -> 0 <= w -> b < h -> int_div (int_mul b w) h <= w.
Proof.
  intros Hb Hw Hbh. unfold int_div, int_mul.
  rewrite wrap_small by (apply quot_int_ok; [apply wrap_int_ok | lia]).
  pose proof (wrap_le_nonneg (b * w) ltac:(nia)) as Hle.
  destruct (Z_lt_le_dec (wrap (b * w)) 0) as [Hneg | Hpos].
  - assert (Z.quot (wrap (b * w)) h <= 0); [| lia].
    apply Z.quot_le_upper_bound; lia.
  - rewrite Z.quot_div_nonneg by lia.
    apply Z.div_le_upper_bound; [lia | nia].
Qed.

(** ** The loop of [fillEmojiString] *)

Lemma popBackToLimit_firstn (l : list EmojiPtr) :
  popBackToLimit l = firstn (Z.to_nat kStickerPreviewEmojiLimit) l.
Proof.
  functional induction (popBackToLimit l) as [l Hlong IH | l Hshort].
  - rewrite IH, removelast_firstn_len, firstn_firstn.
    apply Z.ltb_lt in Hlong.
    f_equal. unfold kStickerPreviewEmojiLimit in *. lia.
  - apply Z.ltb_ge in Hshort.
    symmetry. apply firstn_all2. unfold kStickerPreviewEmojiLimit in *. lia.
Qed.

Lemma popBackToLimit_length (l : list EmojiPtr) :
  Z.of_nat (length (popBackToLimit l)) <= kStickerPreviewEmojiLimit.
Proof.
  rewrite popBackToLimit_firstn.
  pose proof (firstn_le_length (Z.to_nat kStickerPreviewEmojiLimit) l).
  rewrite length_firstn. unfold kStickerPreviewEmojiLimit. lia.
Qed.

(** ** Fitting a size into a box *)

Lemma scaled_positive (env : Env) (r : QSize) :
  1 <= width (scaled env r) /\ 1 <= height (scaled env r).
Proof. unfold scaled, qMax. simpl. lia. Qed.

Lemma fitWidth_bounds (env : Env) (box r : QSize) :
  1 <= width box -> 1 <= width r -> 1 <= height r ->
  1 <= width (fitWidth box r) <= width box /\ 1 <= height (fitWidth box r).
Proof.
  intros Hb Hw Hh. unfold fitWidth.
  destruct (width box <? width r) eqn:E; simpl.
  - unfold qMax. lia.
  - apply Z.ltb_ge in E. lia.
Qed.

Lemma fitHeight_bounds (env : Env) (box r : QSize) :
  1 <= height box -> 1 <= width r <= width box -> 1 <= height r ->
  fitsInside (fitHeight box r) box.
Proof.
  intros Hb Hw Hh. unfold fitHeight, fitsInside.
  destruct (height box <? height r) eqn:E; simpl.
  - apply Z.ltb_lt in E.
    pose proof (shrink_le (height box) (width r) (height r)
                  ltac:(lia) ltac:(lia) E).
    unfold qMax. lia.
  - apply Z.ltb_ge in E. lia.
Qed.

Lemma fitted_fits (env : Env) (box r : QSize) :
  1 <= width box -> 1 <= height box -> fitsInside (fitted env box r) box.
Proof.
  intros Hw Hh. unfold fitted.
  destruct (scaled_positive env r) as [Sw Sh].
  destruct (fitWidth_bounds env box (scaled env r) Hw Sw Sh) as [Fw Fh].
  apply (fitHeight_bounds env); assumption.
Qed.

(** ** Stepping through the monad *)

Section Runs.

Context {A B : Type}.

Lemma runs_ret (a : A) (w : MediaPreviewWidget) (Q : A -> MediaPreviewWidget -> Prop) :
  Q a w -> runs (ret a) w Q.
Proof. intros H. exists a, w. split; [reflexivity | exact H]. Qed.

Lemma runs_gets (f : MediaPreviewWidget -> A) (w : MediaPreviewWidget)
  (Q : A -> MediaPreviewWidget -> Prop) :
  Q (f w) w -> runs (gets f) w Q.
Proof. intros H. exists (f w), w. split; [reflexivity | exact H]. Qed.

Lemma runs_bind (m : M A) (k : A -> M B) (w : MediaPreviewWidget)
  (Q : B -> MediaPreviewWidget -> Prop) :
  runs m w (fun a w1 => runs (k a) w1 Q) -> runs (bind m k) w Q.
Proof.
  intros (a & w1 & E & b & w2 & E2 & H).
  exists b, w2. split; [| exact H]. unfold bind. rewrite E. exact E2.
Qed.

Lemma runs_weaken (m : M A) (w : MediaPreviewWidget)
  (P Q : A -> MediaPreviewWidget -> Prop) :
  runs m w P -> (forall a w', P a w' -> Q a w') -> runs m w Q.
Proof. intros (a & w' & E & H) HPQ. exists a, w'. auto. Qed.

End Runs.

Lemma runs_modify (f : MediaPreviewWidget -> MediaPreviewWidget)
  (w : MediaPreviewWidget) (Q : unit -> MediaPreviewWidget -> Prop) :
  Q tt (f w) -> runs (modify f) w Q.
Proof. intros H. exists tt, (f w). split; [reflexivity | exact H]. Qed.

Lemma runs_when (b : bool) (m : M unit) (w : MediaPreviewWidget)
  (Q : unit -> MediaPreviewWidget -> Prop) :
  (b = true -> runs m w Q) -> (b = false -> Q tt w) -> runs (when b m) w Q.
Proof.
  intros Ht Hf. destruct b; simpl; [auto |].
  apply runs_ret. auto.
Qed.

Lemma sameShell_refl (w : MediaPreviewWidget) : sameShell w w.
Proof. unfold sameShell. intuition. Qed.

Lemma quiet_refl (w : MediaPreviewWidget) : quiet w w.
Proof. split; [apply sameShell_refl | auto]. Qed.

Lemma quiet_trans (w1 w2 w3 : MediaPreviewWidget) :
  quiet w1 w2 -> quiet w2 w3 -> quiet w1 w3.
Proof.
  unfold quiet, sameShell. intros [S1 K1] [S2 K2].
  decompose [and] S1. decompose [and] S2.
  repeat split; try congruence.
  intros Hp Hd. rewrite K2 by congruence. auto.
Qed.

Ltac unfold_monad := unfold bind, ret, gets, modify, when, crash in *.

(** [currentDimensions] always returns, and writes [_cachedSize] only:
    the size it returns for a photo or for no item, nothing for a
    document. *)
Lemma set_cachedSize_same (w : MediaPreviewWidget) :
  set_cachedSize (_cachedSize w) w = w.
Proof. destruct w; reflexivity. Qed.

Lemma currentDimensions_total (env : Env) (w : MediaPreviewWidget) :
  exists s c, currentDimensions env w = Some (s, set_cachedSize c w)
              /\ (c = _cachedSize w \/ c = s)
              /\ (_photo w = None -> _document w <> None -> c = _cachedSize w).
Proof.
  unfold currentDimensions. unfold_monad.
  destruct (negb (QSize_isEmpty (_cachedSize w))) eqn:E.
  - exists (_cachedSize w), (_cachedSize w).
    rewrite set_cachedSize_same. auto.
  - destruct (_document w) as [d|], (_photo w) as [p|]; simpl.
    + eexists; eexists; split; [reflexivity | split; [auto | congruence]].
    + eexists; exists (_cachedSize w).
      rewrite set_cachedSize_same. split; [reflexivity | auto].
    + eexists; eexists; split; [reflexivity | split; [auto | congruence]].
    + eexists; eexists; split; [reflexivity | split; [auto | congruence]].
Qed.

Lemma currentDimensions_quiet (env : Env) (w : MediaPreviewWidget) :
  runs (currentDimensions env) w (fun _ w' => quiet w w').
Proof.
  destruct (currentDimensions_total env w) as (s & c & E & _ & K).
  exists s, (set_cachedSize c w). split; [exact E |].
  unfold quiet, sameShell. simpl. intuition.
Qed.

Ltac quiet_direct := unfold quiet, sameShell, log; simpl; intuition congruence.

Ltac quiet_chain :=
  solve [quiet_direct] ||
  match goal with
  | H : quiet ?b ?c |- quiet _ ?c =>
      apply (quiet_trans _ b c); [quiet_chain | exact H]
  | H : quiet _ ?c |- quiet _ ?t =>
      lazymatch t with
      | context [c] => apply (quiet_trans _ c t); [quiet_chain | solve [quiet_direct]]
      end
  end.

Ltac solve_quiet := cbv beta in *; first [congruence | quiet_chain].

Ltac wp_with known :=
  repeat (cbv beta zeta;
          match goal with
          | |- runs (bind _ _) _ _ => apply runs_bind
          | |- runs (ret _) _ _ => apply runs_ret
          | |- runs (gets _) _ _ => apply runs_gets
          | |- runs (modify _) _ _ => apply runs_modify
          | |- runs (when _ _) _ _ => apply runs_when; intros
          | |- runs (if ?b then _ else _) _ _ => destruct b eqn:?
          | |- runs (match ?x with _ => _ end) _ _ => destruct x eqn:?
          | |- runs _ _ _ => known
          end).

Ltac known_quiet :=
  idtac; match goal with
  | |- runs (currentDimensions _) _ _ =>
      eapply runs_weaken; [apply currentDimensions_quiet | intros ? ? ?]
  end.

Lemma updateArea_quiet (env : Env) (w : MediaPreviewWidget) :
  runs (updateArea env) w (fun _ w' => quiet w w').
Proof. unfold updateArea. wp_with known_quiet. solve_quiet. Qed.

Lemma cachePix_quiet (env : Env) (image : Image) (status : CacheStatus)
  (w : MediaPreviewWidget) :
  runs (cachePix env image status) w (fun _ w' => quiet w w').
Proof. unfold cachePix. wp_with known_quiet. solve_quiet. Qed.

Lemma cachePixBlurred_quiet (env : Env) (s : QSize) (image : Image)
  (w : MediaPreviewWidget) :
  runs (cachePixBlurred env s image) w (fun _ w' => quiet w w').
Proof. unfold cachePixBlurred. wp_with known_quiet. solve_quiet. Qed.

(** [setupLottie] goes through whenever a document is set. *)
Lemma setupLottie_quiet (env : Env) (w : MediaPreviewWidget) :
  _document w <> None ->
  runs (setupLottie env) w (fun _ w' => quiet w w').
Proof.
  intros Hd. unfold setupLottie. wp_with known_quiet.
  - solve_quiet.
  - congruence.
Qed.

Ltac known_quiet2 :=
  idtac; match goal with
  | |- runs (currentDimensions _) _ _ =>
      eapply runs_weaken; [apply currentDimensions_quiet | intros ? ? ?]
  | |- runs (cachePix _ _ _) _ _ =>
      eapply runs_weaken; [apply cachePix_quiet | intros ? ? ?]
  | |- runs (cachePixBlurred _ _ _) _ _ =>
      eapply runs_weaken; [apply cachePixBlurred_quiet | intros ? ? ?]
  | |- runs (setupLottie _) _ _ =>
      eapply runs_weaken; [apply setupLottie_quiet | intros ? ? ?]
  end.

Lemma currentImage_sticker_quiet (env : Env) (d : DocumentData) (st : StickerData)
  (w : MediaPreviewWidget) :
  _document w = Some d ->
  runs (currentImage_sticker env d st) w (fun _ w' => quiet w w').
Proof.
  intros Hd. unfold currentImage_sticker. wp_with known_quiet2;
    solve_quiet.
Qed.

Lemma currentImage_animation_quiet (env : Env) (d : DocumentData)
  (w : MediaPreviewWidget) :
  runs (currentImage_animation env d) w (fun _ w' => quiet w w').
Proof.
  unfold currentImage_animation. wp_with known_quiet2; solve_quiet.
Qed.

Lemma currentImage_photo_quiet (env : Env) (p : PhotoData)
  (w : MediaPreviewWidget) :
  runs (currentImage_photo env p) w (fun _ w' => quiet w w').
Proof.
  unfold currentImage_photo. wp_with known_quiet2; solve_quiet.
Qed.

(** [currentImage] always returns a pixmap; it writes the caches and
    the players and nothing else. *)
Lemma currentImage_quiet (env : Env) (w : MediaPreviewWidget) :
  runs (currentImage env) w (fun _ w' => quiet w w').
Proof.
  unfold currentImage. apply runs_bind, runs_gets. apply runs_bind, runs_gets.
  destruct (_document w) as [d|] eqn:Hd.
  - destruct (sticker d) as [st|].
    + apply currentImage_sticker_quiet; assumption.
    + apply currentImage_animation_quiet.
  - destruct (_photo w) as [p|].
    + apply currentImage_photo_quiet.
    + apply runs_gets. apply quiet_refl.
Qed.

Ltac no_calls := idtac; fail.

Ltac known_calls :=
  idtac; match goal with
  | |- runs (currentDimensions _) _ _ =>
      eapply runs_weaken; [apply currentDimensions_quiet | intros ? ? ?]
  | |- runs (updateArea _) _ _ =>
      eapply runs_weaken; [apply updateArea_quiet | intros ? ? ?]
  | |- runs (currentImage _) _ _ =>
      eapply runs_weaken; [apply currentImage_quiet | intros ? ? ?]
  end.

Ltac from_quiet :=
  cbv beta in *; unfold quiet, sameShell, log in *; simpl in *;
  intuition (try congruence).

(** ** The effect of each method *)

Lemma startShow_effect (env : Env) (w : MediaPreviewWidget) :
  runs (startShow env) w (fun _ w' =>
    startShown env w w' /\
    _cache w' = QPixmap_null /\
    _photo w' = _photo w /\ _document w' = _document w /\
    _cachedSize w' = _cachedSize w /\ size w' = size w /\
    _emojiList w' = _emojiList w /\ _origin w' = _origin w /\
    _gif w' = _gif w /\ _lottie w' = _lottie w /\
    _cacheStatus w' = _cacheStatus w /\ _emojiSize w' = _emojiSize w).
Proof.
  unfold startShow, show, enableGifPauseReason, update, startShown.
  wp_with no_calls; simpl in *;
    destruct (isHidden w); simpl in *; try discriminate;
    repeat split; auto.
  - left. repeat split; auto.
  - left. repeat split; auto.
  - right. repeat split; auto.
Qed.

Lemma hidePreview_visible (env : Env) (w : MediaPreviewWidget) :
  isHidden w = false ->
  runs (hidePreview env) w (fun _ w' =>
    _hiding w' = true /\
    _a_shown w' = Animation_start 1 0 (stickerPreviewDuration env) /\
    _photo w' = None /\ _document w' = None /\
    _lottie w' = None /\ _gif w' = ReaderNull /\
    _cacheStatus w' = CacheNotLoaded /\ _cachedSize w' = QSize_default /\
    isHidden w' = false /\ _controller w' = _controller w /\
    _emojiList w' = _emojiList w /\ size w' = size w).
Proof.
  intros Hv. unfold hidePreview, resetGifAndCache.
  wp_with known_calls; try congruence; from_quiet.
Qed.

Lemma fillEmojiString_effect (env : Env) (w : MediaPreviewWidget) :
  _photo w <> None \/ _document w <> None ->
  fillEmojiString env w
  = Some (tt, set_emojiList (expectedEmoji env (_photo w) (_document w)) w).
Proof.
  intros Hitem. unfold fillEmojiString, expectedEmoji. unfold_monad.
  destruct w as [c a h o d p g lo es el cs ca csz hid sz cl];
    unfold set_emojiList; simpl in *.
  destruct p as [p|]; [reflexivity |].
  destruct d as [d|]; [| destruct Hitem; congruence].
  simpl. destruct (sticker d) as [st|]; simpl; [| reflexivity].
  destruct (GetEmojiListFromSet env d) as [list|]; simpl.
  - rewrite popBackToLimit_firstn. reflexivity.
  - destruct (EmojiFind env (alt st)); reflexivity.
Qed.

Lemma fillEmojiString_runs (env : Env) (w : MediaPreviewWidget) :
  _photo w <> None \/ _document w <> None ->
  runs (fillEmojiString env) w (fun _ w' =>
    w' = set_emojiList (expectedEmoji env (_photo w) (_document w)) w).
Proof.
  intros Hitem. exists tt. eexists. split; [| reflexivity].
  apply fillEmojiString_effect. exact Hitem.
Qed.

Ltac known_show :=
  idtac; match goal with
  | |- runs (startShow _) _ _ =>
      eapply runs_weaken; [apply startShow_effect | intros ? ? ?]
  | |- runs (fillEmojiString _) _ _ =>
      eapply runs_weaken;
      [apply fillEmojiString_runs; simpl;
       first [left; congruence | right; congruence]
      | intros ? ? ?]
  end.

(** The postcondition both overloads of [showPreview] share. *)
Lemma showPreview_photo_effect (env : Env) (origin : FileOrigin) (photo : PhotoData)
  (w : MediaPreviewWidget) :
  runs (showPreview_photo env origin photo) w (fun _ w' =>
    startShown env w w' /\
    _origin w' = origin /\ _photo w' = Some photo /\ _document w' = None /\
    _emojiList w' = [] /\
    _lottie w' = None /\ _gif w' = ReaderNull /\
    _cacheStatus w' = CacheNotLoaded /\ _cachedSize w' = QSize_default /\
    _cache w' = QPixmap_null /\ size w' = size w).
Proof.
  unfold showPreview_photo, resetGifAndCache.
  wp_with known_show. cbv beta in *. subst. simpl.
  unfold startShown in *. simpl. intuition.
Qed.

Lemma showPreview_document_effect (env : Env) (origin : FileOrigin)
  (document : DocumentData) (w : MediaPreviewWidget) :
  notPreviewable document = false ->
  runs (showPreview_document env origin document) w (fun _ w' =>
    startShown env w w' /\
    _origin w' = origin /\ _photo w' = None /\ _document w' = Some document /\
    _emojiList w' = expectedEmoji env None (Some document) /\
    _lottie w' = None /\ _gif w' = ReaderNull /\
    _cacheStatus w' = CacheNotLoaded /\ _cachedSize w' = QSize_default /\
    _cache w' = QPixmap_null /\ size w' = size w).
Proof.
  intros Hok. unfold showPreview_document, resetGifAndCache.
  unfold notPreviewable in Hok. rewrite Hok.
  wp_with known_show. cbv beta in *. subst. simpl.
  unfold startShown in *. simpl. intuition.
Qed.

Lemma paintEvent_source_quiet (env : Env) (w : MediaPreviewWidget) :
  runs (paintEvent_source env) w (fun _ w' => quiet w w').
Proof.
  unfold paintEvent_source. wp_with known_calls; solve_quiet.
Qed.

Lemma paintEvent_draw_something (env : Env) (image : QImage) (pixmap : QPixmap)
  (g : QSize) :
  paintEvent_draw env image pixmap g <> PaintedNothing.
Proof. unfold paintEvent_draw. destruct (QImage_isNull image); discriminate. Qed.

(** [paintEvent] first fetches what to draw, which touches the caches
    only; then it either hides the widget and draws nothing, or draws
    and leaves the widget as it is. *)
Lemma paintEvent_effect (env : Env) (w : MediaPreviewWidget) :
  runs (paintEvent env) w (fun painted w' =>
    exists w1, quiet w w1 /\
      if negb (animating (_a_shown w)) && _hiding w
      then painted = PaintedNothing /\
           w' = set_controller
                  (mkSessionController false
                     (isGifPausedAtLeastFor_MediaPreview (_controller w1)))
                  (set_isHidden true w1)
      else painted <> PaintedNothing /\ w' = w1).
Proof.
  unfold paintEvent. apply runs_bind.
  eapply runs_weaken; [apply paintEvent_source_quiet |].
  intros source w1 Hq. cbv beta.
  apply runs_bind, runs_gets. apply runs_bind, runs_gets.
  assert (E : negb (animating (_a_shown w1)) && _hiding w1
              = negb (animating (_a_shown w)) && _hiding w).
  { destruct Hq as [Hs _]. unfold sameShell in Hs.
    decompose [and] Hs. congruence. }
  rewrite E.
  destruct (negb (animating (_a_shown w)) && _hiding w).
  - unfold hide, disableGifPauseReason. wp_with no_calls.
    exists w1. simpl. auto.
  - wp_with no_calls. exists w1. split; [exact Hq |].
    split; [apply paintEvent_draw_something | reflexivity].
Qed.

Lemma clipCallback_quiet (env : Env) (notification : Notification)
  (w : MediaPreviewWidget) :
  runs (clipCallback env notification) w (fun _ w' => quiet w w').
Proof.
  unfold clipCallback, update. destruct notification;
    wp_with known_calls; solve_quiet.
Qed.

Lemma showPreview_document_hides (env : Env) (origin : FileOrigin)
  (document : DocumentData) :
  notPreviewable document = true ->
  showPreview_document env origin document = hidePreview env.
Proof.
  intros H. unfold showPreview_document. unfold notPreviewable in H.
  rewrite H. reflexivity.
Qed.

Lemma hidePreview_hidden (env : Env) (w : MediaPreviewWidget) :
  isHidden w = true -> hidePreview env w = Some (tt, w).
Proof.
  intros H. unfold hidePreview, bind, gets. rewrite H. reflexivity.
Qed.

(** ** What every reachable state satisfies *)

Lemma invariant_new (env : Env) (controller : SessionController) (geometry : QSize) :
  invariant (MediaPreviewWidget_new env controller geometry).
Proof.
  unfold invariant, atMostOneItem. simpl.
  repeat split; auto; discriminate.
Qed.

Lemma invariant_reset (w w' : MediaPreviewWidget) :
  _photo w' = None \/ _document w' = None ->
  _cachedSize w' = QSize_default ->
  (_hiding w' = true ->
   anim_from (_a_shown w') = 1 /\ anim_to (_a_shown w') = 0) ->
  invariant w'.
Proof.
  intros Hone Hsize Hfade. unfold invariant, atMostOneItem.
  repeat split; try tauto.
  intros _. rewrite Hsize. reflexivity.
Qed.

Lemma invariant_quiet (w w' : MediaPreviewWidget) :
  invariant w -> quiet w w' -> invariant w'.
Proof.
  unfold invariant, atMostOneItem, quiet, sameShell.
  intros (Hone & Hsize & Hfade) (Hs & Hkeep).
  decompose [and] Hs. clear Hs.
  repeat match goal with E : _ w' = _ w |- _ => rewrite E end.
  split; [exact Hone |]. split; [| exact Hfade].
  intros Hd. rewrite Hkeep; [auto | | exact Hd].
  destruct Hone; [assumption | contradiction].
Qed.

Lemma hidePreview_invariant (env : Env) (w : MediaPreviewWidget) :
  invariant w -> runs (hidePreview env) w (fun _ w' => invariant w').
Proof.
  intros Hinv. destruct (isHidden w) eqn:Hh.
  - exists tt, w. split; [apply hidePreview_hidden; exact Hh | exact Hinv].
  - eapply runs_weaken; [apply hidePreview_visible; exact Hh |].
    cbv beta. intros _ w' H. decompose [and] H. clear H.
    apply (invariant_reset w); auto.
    intros _. match goal with E : _a_shown w' = _ |- _ => rewrite E end.
    simpl. auto.
Qed.

Lemma startShown_fade (env : Env) (w w' : MediaPreviewWidget) :
  invariant w -> startShown env w w' ->
  _hiding w' = true ->
  anim_from (_a_shown w') = 1 /\ anim_to (_a_shown w') = 0.
Proof.
  intros (_ & _ & Hfade) (_ & [H | H]) Hh; decompose [and] H; clear H.
  - congruence.
  - match goal with E : _a_shown w' = _ |- _ => rewrite E end.
    apply Hfade. congruence.
Qed.

Lemma step_invariant (env : Env) (e : Event) (w : MediaPreviewWidget) :
  invariant w -> runs (step env e) w (fun _ w' => invariant w').
Proof.
  intros Hinv. destruct e; unfold step.
  - (* ShowDocument *)
    destruct (notPreviewable document) eqn:Hn.
    + rewrite showPreview_document_hides by exact Hn.
      apply hidePreview_invariant. exact Hinv.
    + eapply runs_weaken; [apply showPreview_document_effect; exact Hn |].
      cbv beta. intros _ w' H. decompose [and] H. clear H.
      apply (invariant_reset w); auto.
      eapply startShown_fade; eassumption.
  - (* ShowPhoto *)
    eapply runs_weaken; [apply showPreview_photo_effect |].
    cbv beta. intros _ w' H. decompose [and] H. clear H.
    apply (invariant_reset w); auto.
    eapply startShown_fade; eassumption.
  - (* HidePreview *)
    apply hidePreview_invariant. exact Hinv.
  - (* Paint *)
    apply runs_bind.
    eapply runs_weaken; [apply paintEvent_effect |].
    cbv beta. intros painted w' (w1 & Hq & H).
    apply runs_ret.
    pose proof (invariant_quiet w w1 Hinv Hq) as Hinv1.
    destruct (negb (animating (_a_shown w)) && _hiding w);
      destruct H as [_ ->]; [| exact Hinv1].
    exact Hinv1.
  - (* Resize *)
    unfold resizeEvent, update. wp_with no_calls. exact Hinv.
  - (* Clip *)
    eapply runs_weaken; [apply clipCallback_quiet |].
    cbv beta. intros _ w' Hq. exact (invariant_quiet w w' Hinv Hq).
  - unfold update. wp_with no_calls. exact Hinv.
  - unfold update. wp_with no_calls. exact Hinv.
  - (* LottieDisplayFrameRequest *)
    wp_with known_calls. cbv beta in *.
    match goal with Hq : quiet w _ |- _ =>
      exact (invariant_quiet _ _ (invariant_quiet _ _ Hinv Hq) (quiet_refl _))
    end.
  - unfold update. wp_with no_calls. exact Hinv.
  - (* AnimationFinished *)
    unfold update. wp_with no_calls; [| exact Hinv].
    destruct Hinv as (Hone & Hsize & Hfade).
    repeat split; auto; simpl; apply Hfade; assumption.
  - (* DocumentChanged *)
    wp_with no_calls; [| exact Hinv].
    destruct Hinv as (Hone & Hsize & Hfade).
    unfold invariant, atMostOneItem in *. simpl.
    destruct (_document w); [| discriminate].
    split; [destruct Hone; [auto | discriminate] |].
    split; [intros _; apply Hsize; discriminate | exact Hfade].
  - (* PhotoChanged *)
    wp_with no_calls; [| exact Hinv].
    destruct Hinv as (Hone & Hsize & Hfade).
    unfold invariant, atMostOneItem in *. simpl.
    destruct (_photo w); [| discriminate].
    split; [destruct Hone; [discriminate | auto] |].
    split; [exact Hsize | exact Hfade].
  - wp_with no_calls; exact Hinv.
  - wp_with no_calls; exact Hinv.
Qed.

Lemma reachable_invariant (env : Env) (w : MediaPreviewWidget) :
  reachable env w -> invariant w.
Proof.
  induction 1 as [controller geometry | e w w' Hreach IH Hstep].
  - apply invariant_new.
  - destruct (step_invariant env e w IH) as (u & w2 & E & Hinv).
    rewrite Hstep in E. injection E as _ <-. exact Hinv.
Qed.

(** Every sequence of events goes through, and keeps the invariant. *)
Lemma run_invariant (env : Env) (events : list Event) :
  forall w, invariant w -> runs (run env events) w (fun _ w' => invariant w').
Proof.
  induction events as [| e rest IH]; intros w Hinv; simpl.
  - apply runs_ret. exact Hinv.
  - apply runs_bind.
    eapply runs_weaken; [apply step_invariant; exact Hinv |].
    cbv beta. intros _ w1 H1. apply IH. exact H1.
Qed.

Lemma run_reachable (env : Env) (events : list Event) :
  forall w w', reachable env w -> run env events w = Some (tt, w') ->
               reachable env w'.
Proof.
  induction events as [| e rest IH]; intros w w' Hreach Hrun; simpl in Hrun.
  - injection Hrun as <-. exact Hreach.
  - unfold bind in Hrun. destruct (step env e w) as [[[] w1] |] eqn:E; [| discriminate].
    apply (IH w1 w'); [| exact Hrun].
    apply (reachable_step env e w w1); assumption.
Qed.

(** ** Who hides the widget, and who sets the items *)

Lemma step_items (env : Env) (e : Event) (w : MediaPreviewWidget) :
  atMostOneItem w -> runs (step env e) w (fun _ w' => atMostOneItem w').
Proof.
  intros Hone.
  assert (Hq : forall w', quiet w w' -> atMostOneItem w').
  { intros w' ((_ & _ & _ & _ & Hd & Hp & _) & _).
    unfold atMostOneItem in *. rewrite Hd, Hp. exact Hone. }
  assert (Hhide : runs (hidePreview env) w (fun _ w' => atMostOneItem w')).
  { destruct (isHidden w) eqn:Hh.
    - exists tt, w. split; [apply hidePreview_hidden; exact Hh | exact Hone].
    - eapply runs_weaken; [apply hidePreview_visible; exact Hh |].
      cbv beta. intros _ w' H. decompose [and] H. left. assumption. }
  destruct e; unfold step.
  - destruct (notPreviewable document) eqn:Hn.
    + rewrite showPreview_document_hides by exact Hn. exact Hhide.
    + eapply runs_weaken; [apply showPreview_document_effect; exact Hn |].
      cbv beta. intros _ w' H. decompose [and] H. left. assumption.
  - eapply runs_weaken; [apply showPreview_photo_effect |].
    cbv beta. intros _ w' H. decompose [and] H. right. assumption.
  - exact Hhide.
  - apply runs_bind.
    eapply runs_weaken; [apply paintEvent_effect |].
    cbv beta. intros painted w' (w1 & Hq1 & H). apply runs_ret.
    destruct (negb (animating (_a_shown w)) && _hiding w);
      destruct H as [_ ->]; exact (Hq w1 Hq1).
  - unfold resizeEvent, update. wp_with no_calls. exact Hone.
  - eapply runs_weaken; [apply clipCallback_quiet |].
    cbv beta. intros _ w' Hq1. exact (Hq w' Hq1).
  - unfold update. wp_with no_calls. exact Hone.
  - unfold update. wp_with no_calls. exact Hone.
  - wp_with known_calls. cbv beta in *.
    match goal with Hq1 : quiet w ?x |- _ => exact (Hq x Hq1) end.
  - unfold update. wp_with no_calls. exact Hone.
  - unfold update. wp_with no_calls; exact Hone.
  - wp_with no_calls; [| exact Hone].
    unfold atMostOneItem in *. simpl.
    destruct (_document w); [| discriminate].
    destruct Hone; [auto | discriminate].
  - wp_with no_calls; [| exact Hone].
    unfold atMostOneItem in *. simpl.
    destruct (_photo w); [| discriminate].
    destruct Hone; [discriminate | auto].
  - wp_with no_calls; exact Hone.
  - wp_with no_calls; exact Hone.
Qed.

Lemma run_items (env : Env) (events : list Event) :
  forall w, atMostOneItem w ->
            runs (run env events) w (fun _ w' => atMostOneItem w').
Proof.
  induction events as [| e rest IH]; intros w Hone; simpl.
  - apply runs_ret. exact Hone.
  - apply runs_bind.
    eapply runs_weaken; [apply step_items; exact Hone |].
    cbv beta. intros _ w1 H1. apply IH. exact H1.
Qed.

(** Only [paintEvent] hides a visible widget, and only with [_hiding] set
    and the animation over. *)
Lemma step_hides (env : Env) (e : Event) (w : MediaPreviewWidget) :
  runs (step env e) w (fun _ w' =>
    isHidden w = false -> isHidden w' = true ->
    e = Paint /\ animating (_a_shown w) = false /\ _hiding w = true /\
    gifPauseMediaPreview (_controller w') = false).
Proof.
  assert (Hq : forall w', quiet w w' ->
                 isHidden w = false -> isHidden w' = true -> False).
  { intros w' ((_ & _ & _ & _ & _ & _ & _ & _ & Hh & _) & _). congruence. }
  assert (Hhide : runs (hidePreview env) w (fun _ w' =>
                    isHidden w = false -> isHidden w' = true -> False)).
  { destruct (isHidden w) eqn:Hh.
    - exists tt, w. split; [apply hidePreview_hidden; exact Hh | congruence].
    - eapply runs_weaken; [apply hidePreview_visible; exact Hh |].
      cbv beta. intros _ w' H. decompose [and] H. congruence. }
  assert (Hshown : forall w', startShown env w w' -> isHidden w' = true -> False).
  { intros w' (Hv & _). congruence. }
  destruct e; unfold step.
  - destruct (notPreviewable document) eqn:Hn.
    + rewrite showPreview_document_hides by exact Hn.
      eapply runs_weaken; [exact Hhide | cbv beta; tauto].
    + eapply runs_weaken; [apply showPreview_document_effect; exact Hn |].
      cbv beta. intros _ w' H. decompose [and] H. intros _ Hh.
      exfalso. eauto.
  - eapply runs_weaken; [apply showPreview_photo_effect |].
    cbv beta. intros _ w' H. decompose [and] H. intros _ Hh.
    exfalso. eauto.
  - eapply runs_weaken; [exact Hhide | cbv beta; tauto].
  - apply runs_bind.
    eapply runs_weaken; [apply paintEvent_effect |].
    cbv beta. intros painted w' (w1 & Hq1 & H). apply runs_ret.
    destruct (negb (animating (_a_shown w)) && _hiding w) eqn:Hc;
      destruct H as [_ ->].
    + intros _ _. apply andb_prop in Hc. destruct Hc as [Ha Hh].
      apply negb_true_iff in Ha. simpl. auto.
    + intros Hv Hh. exfalso. exact (Hq w1 Hq1 Hv Hh).
  - unfold resizeEvent, update. wp_with no_calls. simpl. congruence.
  - eapply runs_weaken; [apply clipCallback_quiet |].
    cbv beta. intros _ w' Hq1 Hv Hh. exfalso. exact (Hq w' Hq1 Hv Hh).
  - unfold update. wp_with no_calls. simpl. congruence.
  - unfold update. wp_with no_calls. simpl. congruence.
  - wp_with known_calls. cbv beta in *. simpl. intros Hv Hh.
    match goal with Hq1 : quiet w ?x |- _ => exfalso; exact (Hq x Hq1 Hv Hh) end.
  - unfold update. wp_with no_calls. simpl. congruence.
  - unfold update. wp_with no_calls; simpl; congruence.
  - wp_with no_calls; simpl; congruence.
  - wp_with no_calls; simpl; congruence.
  - wp_with no_calls; simpl; congruence.
  - wp_with no_calls; simpl; congruence.
Qed.

(** * The claims *)

(** C6. Every function of the Linux platform utility header is a no-op or
    returns true: whatever the arguments and whatever the state of the
    toolkit objects, StartTranslucentPaint, InitOnTopPanel,
    DeInitOnTopPanel, ReInitOnTopPanel, UpdateOverlayed, ShowOverAll and
    BringToBack leave that state as it was, and UseMainQueueGeneric
    returns true. *)
Theorem platform_hooks_do_nothing :
  forall (World : Type) (sigma : World)
         (p : Ui.Platform.QPainterRef) (e : Ui.Platform.QPaintEventPtr)
         (panel widget : Ui.Platform.QWidgetPtr) (canFocus : bool),
    Ui.Platform.StartTranslucentPaint p e sigma = sigma /\
    Ui.Platform.InitOnTopPanel panel sigma = sigma /\
    Ui.Platform.DeInitOnTopPanel panel sigma = sigma /\
    Ui.Platform.ReInitOnTopPanel panel sigma = sigma /\
    Ui.Platform.UpdateOverlayed widget sigma = sigma /\
    Ui.Platform.ShowOverAll widget canFocus sigma = sigma /\
    Ui.Platform.BringToBack widget sigma = sigma /\
    Ui.Platform.UseMainQueueGeneric = true.
Proof. intros. repeat split. Qed.

(** C9. hidePreview on a hidden widget is a no-op: it returns at once and
    leaves every field of the widget, and the log of outgoing calls, as
    it was. *)
Theorem hidePreview_hidden_is_noop :
  forall (env : Env) (w : MediaPreviewWidget),
    isHidden w = true -> hidePreview env w = Some (tt, w).
Proof. intros env w H. apply hidePreview_hidden. exact H. Qed.

Lemma hidePreview_hidden_is_noop_witness :
  isHidden sampleWidget = true /\
  hidePreview sampleEnv sampleWidget = Some (tt, sampleWidget).
Proof.
  split; [reflexivity |].
  apply (hidePreview_hidden_is_noop sampleEnv sampleWidget). reflexivity.
Defined.

(** C7. After every call of fillEmojiString (one of _photo and _document
    being set, as at each call site) the emoji list holds at most
    kStickerPreviewEmojiLimit = 10 entries and nothing else has changed:
    the list is empty for a photo and for a document that is not a
    sticker; for a sticker with a list from its set it is that list cut
    from the back to its first 10 entries; for a sticker without one it
    is the emoji found for the alt text, or empty. *)
Theorem fillEmojiString_at_most_ten :
  forall (env : Env) (w : MediaPreviewWidget),
    _photo w <> None \/ _document w <> None ->
    exists l,
      fillEmojiString env w = Some (tt, set_emojiList l w) /\
      Z.of_nat (length l) <= kStickerPreviewEmojiLimit /\
      (_photo w <> None -> l = []) /\
      (forall d st list,
          _photo w = None -> _document w = Some d -> sticker d = Some st ->
          GetEmojiListFromSet env d = Some list ->
          l = firstn 10 list) /\
      (forall d st,
          _photo w = None -> _document w = Some d -> sticker d = Some st ->
          GetEmojiListFromSet env d = None ->
          (length l <= 1)%nat /\
          l = match EmojiFind env (alt st) with
              | Some emoji => [emoji]
              | None => []
              end) /\
      (forall d,
          _photo w = None -> _document w = Some d -> sticker d = None ->
          l = []).
Proof.
  intros env w Hitem.
  exists (expectedEmoji env (_photo w) (_document w)).
  split; [apply fillEmojiString_effect; exact Hitem |].
  unfold expectedEmoji.
  split; [| split; [| split; [| split]]].
  - destruct (_photo w); [simpl; unfold kStickerPreviewEmojiLimit; lia |].
    destruct (_document w) as [d|];
      [| simpl; unfold kStickerPreviewEmojiLimit; lia].
    destruct (sticker d) as [st|];
      [| simpl; unfold kStickerPreviewEmojiLimit; lia].
    destruct (GetEmojiListFromSet env d) as [list|].
    + rewrite length_firstn. unfold kStickerPreviewEmojiLimit. lia.
    + destruct (EmojiFind env (alt st)); simpl;
        unfold kStickerPreviewEmojiLimit; lia.
  - intros Hp. destruct (_photo w); [reflexivity | contradiction].
  - intros d st list Hp Hd Hs Hset. rewrite Hp, Hd, Hs, Hset. reflexivity.
  - intros d st Hp Hd Hs Hset. rewrite Hp, Hd, Hs, Hset.
    split; [destruct (EmojiFind env (alt st)); simpl; lia | reflexivity].
  - intros d Hp Hd Hs. rewrite Hp, Hd, Hs. reflexivity.
Qed.

Lemma fillEmojiString_at_most_ten_witness :
  exists l,
    fillEmojiString sampleEnv
      (set_document (Some sampleSetSticker) sampleWidget)
    = Some (tt, set_emojiList l (set_document (Some sampleSetSticker) sampleWidget)) /\
    Z.of_nat (length l) <= kStickerPreviewEmojiLimit /\
    l = firstn 10 sampleEmojiSet.
Proof.
  destruct (fillEmojiString_at_most_ten sampleEnv
              (set_document (Some sampleSetSticker) sampleWidget))
    as (l & Hrun & Hlen & _ & Hset & _).
  - right. discriminate.
  - exists l. split; [exact Hrun |]. split; [exact Hlen |].
    apply (Hset sampleSetSticker (mkStickerData String.EmptyString false));
      reflexivity.
Defined.

(** C4. From a widget that holds at most one of _photo and _document
    (as a new widget does), every sequence of events, showPreview and
    hidePreview calls among them, goes through and ends in a widget that
    again holds at most one of the two.  The photo overload of
    showPreview sets _photo and nulls _document; the document overload
    sets _document and nulls _photo for a document it shows, and for any
    other document nulls both on a visible widget and changes nothing on
    a hidden one; hidePreview on a visible widget nulls both. *)
Theorem at_most_one_previewed_item :
  forall (env : Env) (w : MediaPreviewWidget),
    atMostOneItem w ->
    (forall events,
        runs (run env events) w (fun _ w' => atMostOneItem w')) /\
    (forall origin photo,
        runs (showPreview_photo env origin photo) w (fun _ w' =>
          _photo w' = Some photo /\ _document w' = None)) /\
    (forall origin document,
        runs (showPreview_document env origin document) w (fun _ w' =>
          if notPreviewable document
          then if isHidden w
               then w' = w
               else _photo w' = None /\ _document w' = None
          else _document w' = Some document /\ _photo w' = None)) /\
    (isHidden w = false ->
     runs (hidePreview env) w (fun _ w' =>
       _photo w' = None /\ _document w' = None)).
Proof.
  intros env w Hone.
  split; [| split; [| split]].
  - intros events. apply run_items. exact Hone.
  - intros origin photo.
    eapply runs_weaken; [apply showPreview_photo_effect |].
    cbv beta. intros _ w' H. decompose [and] H. auto.
  - intros origin document.
    destruct (notPreviewable document) eqn:Hn.
    + rewrite (showPreview_document_hides env origin document Hn).
      destruct (isHidden w) eqn:Hh.
      * exists tt, w. split; [apply hidePreview_hidden; exact Hh | reflexivity].
      * eapply runs_weaken; [apply hidePreview_visible; exact Hh |].
        cbv beta. intros _ w' H. decompose [and] H. auto.
    + eapply runs_weaken; [apply showPreview_document_effect; exact Hn |].
      cbv beta. intros _ w' H. decompose [and] H. auto.
  - intros Hv.
    eapply runs_weaken; [apply hidePreview_visible; exact Hv |].
    cbv beta. intros _ w' H. decompose [and] H. auto.
Qed.

Lemma at_most_one_previewed_item_witness :
  atMostOneItem sampleWidget /\
  runs (run sampleEnv
          [ShowPhoto 1 samplePhoto; ShowDocument 2 sampleSticker; HidePreview;
           ShowDocument 3 sampleFile; ShowDocument 4 sampleAnimation])
       sampleWidget (fun _ w' => atMostOneItem w').
Proof.
  assert (H : atMostOneItem sampleWidget) by (left; reflexivity).
  split; [exact H |].
  destruct (at_most_one_previewed_item sampleEnv sampleWidget H) as [Hrun _].
  apply Hrun.
Defined.

(** C4 as stated fails in its second half: the document overload of
    showPreview does not always set _document and null _photo.  Called
    with a plain file, which is not previewable, on a visible widget
    that shows a photo it nulls both references and sets neither; and on
    the reachable hidden widget [hiddenWithPhoto] it returns at once, so
    _document stays null and _photo stays set. *)
Lemma showPreview_document_sets_neither :
  notPreviewable sampleFile = true /\
  (reachable sampleEnv
     (after (showPreview_photo sampleEnv 1 samplePhoto) sampleWidget) /\
   isHidden (after (showPreview_photo sampleEnv 1 samplePhoto) sampleWidget)
   = false /\
   ~ setsDocumentOnly sampleEnv 3 sampleFile
       (after (showPreview_photo sampleEnv 1 samplePhoto) sampleWidget)) /\
  (reachable sampleEnv hiddenWithPhoto /\
   isHidden hiddenWithPhoto = true /\
   ~ setsDocumentOnly sampleEnv 3 sampleFile hiddenWithPhoto /\
   showPreview_document sampleEnv 3 sampleFile hiddenWithPhoto
   = Some (tt, hiddenWithPhoto) /\
   _photo hiddenWithPhoto = Some samplePhoto).
Proof.
  split; [reflexivity |]. split.
  - split; [| split; [vm_compute; reflexivity |]].
    + apply (run_reachable sampleEnv [ShowPhoto 1 samplePhoto] sampleWidget);
        [apply reachable_new | vm_compute; reflexivity].
    + intros H.
      destruct (H (after (showPreview_document sampleEnv 3 sampleFile)
                     (after (showPreview_photo sampleEnv 1 samplePhoto)
                            sampleWidget)))
        as [Hd _].
      * vm_compute. reflexivity.
      * vm_compute in Hd. discriminate.
  - split; [| split; [vm_compute; reflexivity | split; [| split]]].
    + apply (run_reachable sampleEnv
               [ShowPhoto 1 samplePhoto; HidePreview; AnimationFinished;
                ShowPhoto 2 samplePhoto; Paint]
               sampleWidget);
        [apply reachable_new | vm_compute; reflexivity].
    + intros H.
      destruct (H hiddenWithPhoto) as [Hd _].
      * vm_compute. reflexivity.
      * vm_compute in Hd. discriminate.
    + vm_compute. reflexivity.
    + vm_compute. reflexivity.
Qed.

(** C5. The preview fades in and out.  startShow on a hidden or
    still-animating widget clears the cached bitmap, sets _hiding to
    false and starts the animation from 0 to 1; a hidden widget becomes
    visible and enables the MediaPreview gif-pause reason, a visible one
    keeps the reason as it was.  hidePreview on a visible widget sets _hiding
    to true and starts the animation from 1 to 0, the widget staying
    visible.  No event hides a visible widget except a paint event that
    finds _hiding set and the animation over, and that one disables the
    gif-pause reason; in every reachable state with _hiding set the
    animation last started is the one from 1 to 0; and a paint event in
    such a state, the animation over, does hide the widget. *)
Theorem preview_fades_in_and_out :
  forall (env : Env) (w : MediaPreviewWidget),
    (isHidden w = true \/ animating (_a_shown w) = true ->
     runs (startShow env) w (fun _ w' =>
       _cache w' = QPixmap_null /\ _hiding w' = false /\
       _a_shown w' = Animation_start 0 1 (stickerPreviewDuration env) /\
       isHidden w' = false /\
       (isHidden w = true -> gifPauseMediaPreview (_controller w') = true) /\
       (isHidden w = false ->
        gifPauseMediaPreview (_controller w')
        = gifPauseMediaPreview (_controller w)))) /\
    (isHidden w = false ->
     runs (hidePreview env) w (fun _ w' =>
       _hiding w' = true /\
       _a_shown w' = Animation_start 1 0 (stickerPreviewDuration env) /\
       isHidden w' = false /\ _controller w' = _controller w)) /\
    (forall e,
        runs (step env e) w (fun _ w' =>
          isHidden w = false -> isHidden w' = true ->
          e = Paint /\ animating (_a_shown w) = false /\ _hiding w = true /\
          gifPauseMediaPreview (_controller w') = false)) /\
    (reachable env w -> _hiding w = true ->
     anim_from (_a_shown w) = 1 /\ anim_to (_a_shown w) = 0) /\
    (animating (_a_shown w) = false -> _hiding w = true ->
     runs (paintEvent env) w (fun painted w' =>
       painted = PaintedNothing /\ isHidden w' = true /\
       gifPauseMediaPreview (_controller w') = false)).
Proof.
  intros env w.
  split; [| split; [| split; [| split]]].
  - intros Hstart.
    eapply runs_weaken; [apply startShow_effect |].
    cbv beta. intros _ w' ((Hv & Hshown) & Hcache & _).
    assert (Hcond : isHidden w || animating (_a_shown w) = true).
    { destruct Hstart as [-> | ->]; [reflexivity | apply orb_true_r]. }
    destruct Hshown as [H | H]; decompose [and] H; clear H; [| congruence].
    repeat split; auto.
    + intros Hh. rewrite Hh in *. simpl in *. assumption.
    + intros Hh. rewrite Hh in *. simpl in *. assumption.
  - intros Hv.
    eapply runs_weaken; [apply hidePreview_visible; exact Hv |].
    cbv beta. intros _ w' H. decompose [and] H. auto.
  - intros e. apply step_hides.
  - intros Hreach Hh.
    destruct (reachable_invariant env w Hreach) as (_ & _ & Hfade). auto.
  - intros Ha Hh.
    eapply runs_weaken; [apply paintEvent_effect |].
    cbv beta. intros painted w' (w1 & _ & H).
    rewrite Ha, Hh in H. simpl in H. destruct H as [-> ->]. auto.
Qed.

Lemma preview_fades_in_and_out_witness :
  runs (startShow sampleEnv) sampleWidget (fun _ w' =>
    _cache w' = QPixmap_null /\ _hiding w' = false /\
    _a_shown w' = Animation_start 0 1 150 /\
    isHidden w' = false /\
    (isHidden sampleWidget = true ->
     gifPauseMediaPreview (_controller w') = true) /\
    (isHidden sampleWidget = false ->
     gifPauseMediaPreview (_controller w')
     = gifPauseMediaPreview (_controller sampleWidget))).
Proof.
  destruct (preview_fades_in_and_out sampleEnv sampleWidget) as [Hshow _].
  apply Hshow. left. reflexivity.
Defined.

(** ** The size of the preview *)

Lemma photoBox_plain (env : Env) (w : MediaPreviewWidget) :
  int_ok (2 * boxVerticalMargin env) ->
  int_ok (width (size w) - 2 * boxVerticalMargin env) ->
  int_ok (height (size w) - 2 * boxVerticalMargin env) ->
  photoBox env w
  = mkQSize (width (size w) - 2 * boxVerticalMargin env)
            (height (size w) - 2 * boxVerticalMargin env).
Proof.
  intros Hm Hw Hh. unfold photoBox, int_sub, int_mul.
  rewrite (wrap_small (2 * boxVerticalMargin env)) by exact Hm.
  rewrite !wrap_small by assumption. reflexivity.
Qed.

Lemma documentBox_plain (env : Env) (d : DocumentData) :
  int_ok (2 * maxStickerSize env) ->
  documentBox env d
  = match sticker d with
    | Some _ => mkQSize (maxStickerSize env) (maxStickerSize env)
    | None => mkQSize (2 * maxStickerSize env) (2 * maxStickerSize env)
    end.
Proof.
  intros H. unfold documentBox, int_mul.
  rewrite wrap_small by exact H. reflexivity.
Qed.

(** What [currentDimensions] computes when nothing is cached. *)
Lemma currentDimensions_fresh (env : Env) (w : MediaPreviewWidget) :
  QSize_isEmpty (_cachedSize w) = true ->
  (forall p, _photo w = Some p ->
     currentDimensions env w
     = Some (fitted env (photoBox env w) (mkQSize (photo_width p) (photo_height p)),
             set_cachedSize
               (fitted env (photoBox env w) (mkQSize (photo_width p) (photo_height p)))
               w)) /\
  (forall d, _photo w = None -> _document w = Some d ->
     currentDimensions env w
     = Some (fitted env (documentBox env d) (documentSize d (_gif w)), w)).
Proof.
  intros He. unfold currentDimensions. unfold_monad. rewrite He. simpl.
  split.
  - intros p Hp. rewrite Hp. destruct (_document w); reflexivity.
  - intros d Hp Hd. rewrite Hp, Hd. reflexivity.
Qed.

(** For a document in a reachable state nothing is ever in
    [_cachedSize], so the size is always computed. *)
Lemma reachable_document_fresh (env : Env) (w : MediaPreviewWidget) :
  reachable env w -> _document w <> None ->
  _photo w = None /\ QSize_isEmpty (_cachedSize w) = true.
Proof.
  intros Hreach Hd.
  destruct (reachable_invariant env w Hreach) as (Hone & Hsize & _).
  split.
  - destruct Hone as [Hp | Hn]; [exact Hp | congruence].
  - apply Hsize. exact Hd.
Qed.

(** C1, as the code has it.  Let both sides of the applicable box be at
    least 1 (for a photo the box is the widget's width and height less
    2 * st::boxVerticalMargin, for a sticker st::maxStickerSize squared,
    for another document twice that on each side), and let
    currentDimensions compute the size: _cachedSize is empty, or the
    item is a document of a reachable widget, for which it always is.
    Then the call returns a size that fits inside the box, with both
    sides at least 1; this holds also where the `int` products of the
    scaling wrap around. *)
Theorem currentDimensions_fits_box :
  forall (env : Env) (w : MediaPreviewWidget) (box : QSize),
    applicableBox env w = Some box ->
    1 <= width box -> 1 <= height box ->
    QSize_isEmpty (_cachedSize w) = true
    \/ (reachable env w /\ _document w <> None) ->
    exists s w', currentDimensions env w = Some (s, w') /\ fitsInside s box.
Proof.
  intros env w box Hbox Hw Hh Hfresh.
  assert (He : QSize_isEmpty (_cachedSize w) = true).
  { destruct Hfresh as [He | [Hreach Hd]]; [exact He |].
    apply (reachable_document_fresh env w Hreach Hd). }
  destruct (currentDimensions_fresh env w He) as [Hphoto Hdoc].
  unfold applicableBox in Hbox.
  destruct (_photo w) as [p|] eqn:Hp.
  - injection Hbox as <-.
    rewrite (Hphoto p eq_refl). eexists; eexists. split; [reflexivity |].
    apply fitted_fits; assumption.
  - destruct (_document w) as [d|] eqn:Hd; [| discriminate].
    injection Hbox as <-.
    rewrite (Hdoc d eq_refl eq_refl). eexists; eexists. split; [reflexivity |].
    apply fitted_fits; assumption.
Qed.

Lemma currentDimensions_fits_box_witness :
  exists s w',
    currentDimensions sampleEnv
      (after (showPreview_photo sampleEnv 1 samplePhoto) sampleWidget)
    = Some (s, w') /\
    fitsInside s (mkQSize 984 784).
Proof.
  apply (currentDimensions_fits_box sampleEnv
           (after (showPreview_photo sampleEnv 1 samplePhoto) sampleWidget)
           (mkQSize 984 784)).
  - vm_compute. reflexivity.
  - simpl. lia.
  - simpl. lia.
  - left. vm_compute. reflexivity.
Defined.

(** C1 as stated fails.  A photo's size, cached at the first paint, is
    returned unchanged after the widget has been resized: 984 x 492,
    while the box of the smaller widget is 484 x 384.  And in a widget
    narrower than its two margins the box has negative sides, which a
    size with both sides at least 1 cannot fit. *)
Lemma currentDimensions_stale_after_resize :
  (reachable sampleEnv photoThenResized /\
   _photo photoThenResized = Some samplePhoto /\
   ~ alwaysFits sampleEnv photoThenResized) /\
  (reachable sampleEnv photoInSmallWidget /\
   _photo photoInSmallWidget = Some samplePhoto /\
   ~ alwaysFits sampleEnv photoInSmallWidget).
Proof.
  split; (split; [| split; [vm_compute; reflexivity |]]).
  - apply (run_reachable sampleEnv
             [ShowPhoto 1 samplePhoto; Paint; Resize (mkQSize 500 400)]
             sampleWidget);
      [apply reachable_new | vm_compute; reflexivity].
  - intros H.
    eassert (Hfits : fitsInside (mkQSize 984 492) (mkQSize 484 384)).
    { eapply H; vm_compute; reflexivity. }
    unfold fitsInside in Hfits. simpl in Hfits. lia.
  - apply (run_reachable sampleEnv
             [Resize (mkQSize 10 10); ShowPhoto 1 samplePhoto]
             sampleWidget);
      [apply reachable_new | vm_compute; reflexivity].
  - intros H.
    eassert (Hfits : fitsInside (mkQSize 36 (-6)) (mkQSize (-6) (-6))).
    { eapply H; vm_compute; reflexivity. }
    unfold fitsInside in Hfits. simpl in Hfits. lia.
Qed.

Lemma currentDimensions_cached (env : Env) (w : MediaPreviewWidget) :
  QSize_isEmpty (_cachedSize w) = false ->
  currentDimensions env w = Some (_cachedSize w, w).
Proof.
  intros He. unfold currentDimensions. unfold_monad. rewrite He. reflexivity.
Qed.

(** C8. For a previewed photo currentDimensions is idempotent: the call
    stores the size it returns in _cachedSize and changes nothing else,
    and a second call on the resulting widget returns that same size and
    leaves the widget as it is; the size is the fitted one when the call
    found _cachedSize empty, and once a non-empty size is stored every
    widget holding it in _cachedSize answers with it, whatever its other
    fields.  For a document the size is never cached: with no photo
    set the call leaves the widget untouched, and in every reachable
    state it returns the size fitted from the document's present
    dimensions. *)
Theorem currentDimensions_idempotent :
  forall (env : Env) (w : MediaPreviewWidget),
    (forall p, _photo w = Some p ->
       exists s,
         currentDimensions env w = Some (s, set_cachedSize s w) /\
         currentDimensions env (set_cachedSize s w) = Some (s, set_cachedSize s w) /\
         (QSize_isEmpty (_cachedSize w) = true ->
          s = fitted env (photoBox env w)
                (mkQSize (photo_width p) (photo_height p))) /\
         (QSize_isEmpty s = false ->
          forall w2, _cachedSize w2 = s ->
                     currentDimensions env w2 = Some (s, w2))) /\
    (forall d, _photo w = None -> _document w = Some d ->
       exists s, currentDimensions env w = Some (s, w)) /\
    (forall d, reachable env w -> _document w = Some d ->
       currentDimensions env w
       = Some (fitted env (documentBox env d) (documentSize d (_gif w)), w)).
Proof.
  intros env w. split.
  - intros p Hp.
    assert (Hcached : forall s w2,
               QSize_isEmpty s = false -> _cachedSize w2 = s ->
               currentDimensions env w2 = Some (s, w2)).
    { intros s w2 Hs <-. apply currentDimensions_cached. exact Hs. }
    destruct (QSize_isEmpty (_cachedSize w)) eqn:He.
    + destruct (currentDimensions_fresh env w He) as [Hphoto _].
      set (s := fitted env (photoBox env w)
                  (mkQSize (photo_width p) (photo_height p))).
      exists s. split; [apply Hphoto; exact Hp |].
      split; [| split; [reflexivity | intros Hs w2 E; apply Hcached; assumption]].
      destruct (QSize_isEmpty s) eqn:Hs.
      * destruct (currentDimensions_fresh env (set_cachedSize s w) Hs)
          as [Hagain _].
        rewrite (Hagain p Hp). reflexivity.
      * apply Hcached; [exact Hs | reflexivity].
    + exists (_cachedSize w). rewrite set_cachedSize_same.
      split; [apply currentDimensions_cached; exact He |].
      split; [apply currentDimensions_cached; exact He |].
      split; [discriminate | intros Hs w2 E; apply Hcached; assumption].
  - split.
    + intros d Hp Hd.
      destruct (currentDimensions_total env w) as (s & c & E & _ & Hkeep).
      exists s. rewrite E, Hkeep, set_cachedSize_same; congruence.
    + intros d Hreach Hd.
      assert (Hsome : _document w <> None) by congruence.
      destruct (reachable_document_fresh env w Hreach Hsome) as [Hp He].
      destruct (currentDimensions_fresh env w He) as [_ Hdoc].
      apply Hdoc; assumption.
Qed.

Lemma currentDimensions_idempotent_witness :
  exists s,
    currentDimensions sampleEnv
      (after (showPreview_photo sampleEnv 1 samplePhoto) sampleWidget)
    = Some (s, set_cachedSize s
                 (after (showPreview_photo sampleEnv 1 samplePhoto) sampleWidget)) /\
    currentDimensions sampleEnv
      (set_cachedSize s
         (after (showPreview_photo sampleEnv 1 samplePhoto) sampleWidget))
    = Some (s, set_cachedSize s
                 (after (showPreview_photo sampleEnv 1 samplePhoto) sampleWidget)).
Proof.
  destruct (currentDimensions_idempotent sampleEnv
              (after (showPreview_photo sampleEnv 1 samplePhoto) sampleWidget))
    as [Hphoto _].
  destruct (Hphoto samplePhoto) as (s & Hfirst & Hsecond & _).
  - vm_compute. reflexivity.
  - exists s. split; assumption.
Defined.

(** ** Showing a document *)

(** C2, as the code has it.  A call of showPreview with a document that
    is neither an animation nor a sticker, or is a video message, is a
    call of hidePreview: on a hidden widget it changes nothing, on a
    visible one it starts the fade-out and nulls both previewed-item
    references.  For any other document the show is started, _origin
    and _document are set, _photo is nulled, the emoji list is refilled,
    and the players, the cache status, the cached size and the cached
    bitmap are reset. *)
Theorem showPreview_document_cases :
  forall (env : Env) (origin : FileOrigin) (document : DocumentData)
         (w : MediaPreviewWidget),
    (notPreviewable document = true ->
     showPreview_document env origin document w = hidePreview env w /\
     (isHidden w = true ->
      showPreview_document env origin document w = Some (tt, w)) /\
     (isHidden w = false ->
      runs (showPreview_document env origin document) w (fun _ w' =>
        _hiding w' = true /\
        _a_shown w' = Animation_start 1 0 (stickerPreviewDuration env) /\
        _photo w' = None /\ _document w' = None))) /\
    (notPreviewable document = false ->
     runs (showPreview_document env origin document) w (fun _ w' =>
       startShown env w w' /\
       _origin w' = origin /\ _document w' = Some document /\ _photo w' = None /\
       _emojiList w' = expectedEmoji env None (Some document) /\
       _lottie w' = None /\ _gif w' = ReaderNull /\
       _cacheStatus w' = CacheNotLoaded /\ _cachedSize w' = QSize_default /\
       _cache w' = QPixmap_null)).
Proof.
  intros env origin document w. split.
  - intros Hn. rewrite (showPreview_document_hides env origin document Hn).
    split; [reflexivity |]. split.
    + apply hidePreview_hidden.
    + intros Hv.
      eapply runs_weaken; [apply hidePreview_visible; exact Hv |].
      cbv beta. intros _ w' H. decompose [and] H. auto.
  - intros Hn.
    eapply runs_weaken; [apply showPreview_document_effect; exact Hn |].
    cbv beta. intros _ w' H. tauto.
Qed.

Lemma showPreview_document_cases_witness :
  runs (showPreview_document sampleEnv 1 sampleSetSticker) sampleWidget
    (fun _ w' =>
       startShown sampleEnv sampleWidget w' /\
       _origin w' = 1 /\ _document w' = Some sampleSetSticker /\
       _photo w' = None /\
       _emojiList w' = expectedEmoji sampleEnv None (Some sampleSetSticker) /\
       _lottie w' = None /\ _gif w' = ReaderNull /\
       _cacheStatus w' = CacheNotLoaded /\ _cachedSize w' = QSize_default /\
       _cache w' = QPixmap_null) /\
  showPreview_document sampleEnv 1 sampleFile sampleWidget
  = Some (tt, sampleWidget).
Proof.
  split.
  - destruct (showPreview_document_cases sampleEnv 1 sampleSetSticker sampleWidget)
      as [_ Hshow].
    apply Hshow. reflexivity.
  - destruct (showPreview_document_cases sampleEnv 1 sampleFile sampleWidget)
      as [Hhide _].
    destruct (Hhide eq_refl) as (_ & Hhidden & _).
    apply Hhidden. reflexivity.
Defined.

(** C2 as stated fails.  The widget [hiddenWithPhoto] is reachable, hidden
    and holds a photo; showPreview with a plain file returns at once on
    it, and _photo is still set afterwards. *)
Lemma showPreview_document_keeps_photo :
  reachable sampleEnv hiddenWithPhoto /\
  notPreviewable sampleFile = true /\
  ~ endsWithoutItem sampleEnv 3 sampleFile hiddenWithPhoto.
Proof.
  split; [| split; [reflexivity |]].
  - apply (run_reachable sampleEnv
             [ShowPhoto 1 samplePhoto; HidePreview; AnimationFinished;
              ShowPhoto 2 samplePhoto; Paint]
             sampleWidget);
      [apply reachable_new | vm_compute; reflexivity].
  - intros H.
    destruct (H hiddenWithPhoto) as [Hp _].
    + vm_compute. reflexivity.
    + vm_compute in Hp. discriminate.
Qed.

(** ** The image of a sticker *)

(** With a document and no photo, [currentDimensions] changes nothing. *)
Lemma currentDimensions_document (env : Env) (w : MediaPreviewWidget) :
  _photo w = None -> _document w <> None ->
  currentDimensions env w = Some (dimensionsOf env w, w).
Proof.
  intros Hp Hd. unfold dimensionsOf.
  destruct (currentDimensions_total env w) as (s & c & E & _ & Hkeep).
  rewrite E. rewrite (Hkeep Hp Hd), set_cachedSize_same. reflexivity.
Qed.

Lemma currentDimensions_document_runs (env : Env) (w : MediaPreviewWidget) :
  _photo w = None -> _document w <> None ->
  runs (currentDimensions env) w (fun s w' => s = dimensionsOf env w /\ w' = w).
Proof.
  intros Hp Hd. exists (dimensionsOf env w), w.
  split; [apply currentDimensions_document; assumption | auto].
Qed.

(** The size does not depend on the lottie player, the cache status or
    the call log. *)
Lemma dimensionsOf_lottie (env : Env) (l : option SinglePlayer) (c : Call)
  (w : MediaPreviewWidget) :
  dimensionsOf env (log c (set_lottie l w)) = dimensionsOf env w.
Proof.
  destruct w as [c0 a h o d p g lo es el cs ca csz hid sz cl].
  unfold dimensionsOf, currentDimensions, log. unfold_monad. simpl.
  destruct (negb (QSize_isEmpty csz)); [reflexivity |].
  destruct d, p; reflexivity.
Qed.

Ltac known_document :=
  idtac; match goal with
  | |- runs (currentDimensions _) _ _ =>
      eapply runs_weaken;
      [apply currentDimensions_document_runs; simpl; congruence
      | intros ? ? [? ?]; subst]
  end.

(** C3, as the code has it.  For a previewed sticker whose full bitmap
    is not cached (_cacheStatus is not CacheLoaded), currentImage first
    sets up the lottie player if the sticker is animated, loaded and has
    none; then, in this order: if the player is ready it returns a null
    pixmap and leaves the cache alone; otherwise, if the full sticker
    image is there, it caches and returns the sharp image and sets
    _cacheStatus to CacheLoaded; otherwise, if a thumbnail is loaded and
    _cacheStatus is still CacheNotLoaded, it caches and returns the
    blurred thumbnail and sets _cacheStatus to CacheThumbLoaded;
    otherwise (no thumbnail yet, or _cacheStatus already
    CacheThumbLoaded) it returns the cached pixmap as it is.  Once
    _cacheStatus is CacheLoaded the call returns the cached pixmap and
    changes nothing. *)
Theorem currentImage_sticker_order :
  forall (env : Env) (w : MediaPreviewWidget) (d : DocumentData) (st : StickerData),
    _document w = Some d -> _photo w = None -> sticker d = Some st ->
    (_cacheStatus w <> CacheLoaded ->
     runs (currentImage env) w (fun pixmap w' =>
       (_lottie w' = _lottie w \/
        animated st = true /\ _lottie w = None /\ document_loaded d = true /\
        _lottie w'
        = Some (makeSinglePlayer env d
                  (QSize_scale (dimensionsOf env w) (cIntRetinaFactor env)))) /\
       if lottieReady (_lottie w') then
         pixmap = QPixmap_null /\
         _cache w' = _cache w /\ _cacheStatus w' = _cacheStatus w
       else
         match getStickerLarge d with
         | Some image =>
             pixmap = sharpPixmap env w image /\
             _cache w' = sharpPixmap env w image /\
             _cacheStatus w' = CacheLoaded
         | None =>
             if hasThumbnail d && image_loaded (document_thumbnail d)
             then match _cacheStatus w with
                  | CacheNotLoaded =>
                      pixmap = blurredThumbnail env w d /\
                      _cache w' = blurredThumbnail env w d /\
                      _cacheStatus w' = CacheThumbLoaded
                  | _ =>
                      pixmap = _cache w /\
                      _cache w' = _cache w /\
                      _cacheStatus w' = CacheThumbLoaded
                  end
             else
               pixmap = _cache w /\
               _cache w' = _cache w /\ _cacheStatus w' = _cacheStatus w
         end)) /\
    (_cacheStatus w = CacheLoaded ->
     currentImage env w = Some (_cache w, w)).
Proof.
  intros env w d st Hd Hp Hs. split.
  - intros Hstatus.
    unfold currentImage. apply runs_bind, runs_gets. apply runs_bind, runs_gets.
    rewrite Hd, Hs.
    unfold currentImage_sticker, setupLottie, cachePix, cachePixBlurred.
    wp_with known_document.
    all: simpl in *; try congruence.
    all: repeat match goal with
                | E : Some _ = Some _ |- _ => injection E as E; subst
                end.
    all: rewrite ?dimensionsOf_lottie.
    all: split;
      [ first [ left; reflexivity
              | right;
                repeat match goal with
                       | E : _ && _ = true |- _ =>
                           apply andb_prop in E; destruct E
                       end;
                destruct (_lottie w); [discriminate | auto] ]
      | ].
    all: repeat match goal with
                | E : ?x = _ |- context [?x] => rewrite E
                end.
    all: try (unfold sharpPixmap, blurredThumbnail; auto; fail).
    all: destruct (_cacheStatus w) eqn:Hc; simpl in *; try congruence;
      destruct (hasThumbnail d), (image_loaded (document_thumbnail d));
      simpl in *; try discriminate; unfold blurredThumbnail; auto.
  - intros Hstatus.
    unfold currentImage, bind, gets. rewrite Hd, Hs.
    unfold currentImage_sticker, bind, gets. rewrite Hstatus. reflexivity.
Qed.

Lemma currentImage_sticker_order_witness :
  runs (currentImage sampleEnv)
       (after (showPreview_document sampleEnv 1 sampleSetSticker) sampleWidget)
       (fun pixmap w' =>
          pixmap = mkQPixmap 256 150 9 /\ _cache w' = pixmap /\
          _cacheStatus w' = CacheLoaded).
Proof.
  destruct (currentImage_sticker_order sampleEnv
              (after (showPreview_document sampleEnv 1 sampleSetSticker) sampleWidget)
              sampleSetSticker (mkStickerData String.EmptyString false)
              eq_refl eq_refl eq_refl) as [Hfresh _].
  eapply runs_weaken; [apply Hfresh; vm_compute; discriminate |].
  cbv beta. intros pixmap w' [Hlottie H].
  assert (Hnone : _lottie w' = None).
  { destruct Hlottie as [-> | (Ha & _)]; [reflexivity | discriminate Ha]. }
  rewrite Hnone in H. simpl in H.
  destruct H as (-> & -> & ->). vm_compute. auto.
Defined.

(** C3 as stated fails.  In the reachable widget
    [stickerWithNewThumbnail] the sticker's full bitmap is not cached, no
    lottie player is ready, the full image is not there and a thumbnail
    is loaded, yet currentImage does not cache the blurred thumbnail: the
    status is already CacheThumbLoaded and the pixmap cached before is
    returned. *)
Lemma currentImage_keeps_cached_thumbnail :
  reachable sampleEnv stickerWithNewThumbnail /\
  _document stickerWithNewThumbnail = Some sampleStickerNewThumb /\
  _cacheStatus stickerWithNewThumbnail <> CacheLoaded /\
  lottieReady (_lottie stickerWithNewThumbnail) = false /\
  getStickerLarge sampleStickerNewThumb = None /\
  hasThumbnail sampleStickerNewThumb
  && image_loaded (document_thumbnail sampleStickerNewThumb) = true /\
  ~ cachesBlurredThumbnail sampleEnv stickerWithNewThumbnail sampleStickerNewThumb.
Proof.
  split.
  - apply (run_reachable sampleEnv
             [ShowDocument 1 sampleSticker; Paint;
              DocumentChanged sampleStickerNewThumb]
             sampleWidget);
      [apply reachable_new | vm_compute; reflexivity].
  - repeat split; try (vm_compute; congruence).
    intros H.
    edestruct H as [Hpix _].
    + vm_compute. reflexivity.
    + vm_compute in Hpix. discriminate.
Qed.

(** * Further properties of the widget *)

(** ** Tools *)

Lemma currentDimensions_sets_size (env : Env) (w : MediaPreviewWidget) :
  runs (currentDimensions env) w (fun s w' =>
    s = dimensionsOf env w /\ exists c, w' = set_cachedSize c w).
Proof.
  destruct (currentDimensions_total env w) as (s & c & E & _).
  exists s, (set_cachedSize c w). split; [exact E |].
  unfold dimensionsOf. rewrite E. eauto.
Qed.

Lemma dimensionsOf_log (env : Env) (c : Call) (w : MediaPreviewWidget) :
  dimensionsOf env (log c w) = dimensionsOf env w.
Proof.
  destruct w as [c0 a h o d p g lo es el cs ca csz hid sz cl].
  unfold dimensionsOf, currentDimensions, log. unfold_monad. simpl.
  destruct (negb (QSize_isEmpty csz)); [reflexivity |].
  destruct d, p; reflexivity.
Qed.

(** With a photo set, [currentDimensions] stores the size it returns. *)
Lemma currentDimensions_photo (env : Env) (w : MediaPreviewWidget) (p : PhotoData) :
  _photo w = Some p ->
  currentDimensions env w
  = Some (dimensionsOf env w, set_cachedSize (dimensionsOf env w) w).
Proof.
  intros Hp. unfold dimensionsOf.
  destruct (QSize_isEmpty (_cachedSize w)) eqn:He.
  - destruct (currentDimensions_fresh env w He) as [Hphoto _].
    rewrite (Hphoto p Hp). reflexivity.
  - rewrite (currentDimensions_cached env w He), set_cachedSize_same.
    reflexivity.
Qed.

Ltac known_size :=
  idtac; match goal with
  | |- runs (currentDimensions _) _ _ =>
      eapply runs_weaken;
      [apply currentDimensions_sets_size
      | intros ? ? [? [? ?]]; subst]
  end.

(** ** No event makes the widget fail *)

(** X1. Whatever the state of the widget, every sequence of events goes
    through: fillEmojiString is never reached with both _photo and
    _document null, and setupLottie never without a document. *)
Theorem events_never_fail :
  forall (env : Env) (events : list Event) (w : MediaPreviewWidget),
    exists w', run env events w = Some (tt, w').
Proof.
  intros env events. induction events as [| e rest IH]; intros w; simpl.
  - exists w. reflexivity.
  - destruct (step_hides env e w) as ([] & w1 & E & _).
    unfold bind. rewrite E. apply IH.
Qed.

(** ** Showing a photo *)

(** X2. showPreview with a photo always shows it: the widget ends up
    visible with _photo set to the photo, _document null, _origin set,
    the emoji list empty, no clip reader, no lottie player, nothing
    cached and no cached size.  From a hidden widget the call also
    enables the MediaPreview gif-pause reason, clears _hiding and starts
    the fade-in from 0 to 1. *)
Theorem showPreview_photo_shows :
  forall (env : Env) (origin : FileOrigin) (photo : PhotoData)
         (w : MediaPreviewWidget),
    runs (showPreview_photo env origin photo) w (fun _ w' =>
      isHidden w' = false /\
      _origin w' = origin /\ _photo w' = Some photo /\ _document w' = None /\
      _emojiList w' = [] /\
      _gif w' = ReaderNull /\ _lottie w' = None /\
      _cache w' = QPixmap_null /\ _cacheStatus w' = CacheNotLoaded /\
      _cachedSize w' = QSize_default /\
      size w' = size w /\
      (isHidden w = true ->
       gifPauseMediaPreview (_controller w') = true /\
       _hiding w' = false /\
       _a_shown w' = Animation_start 0 1 (stickerPreviewDuration env))).
Proof.
  intros env origin photo w.
  eapply runs_weaken; [apply showPreview_photo_effect |].
  cbv beta. intros _ w' ((Hv & Hshown) & H).
  decompose [and] H. clear H.
  repeat (split; [assumption |]).
  intros Hh. rewrite Hh in Hshown. simpl in Hshown.
  destruct Hshown as [Hs | Hs]; decompose [and] Hs; [auto | discriminate].
Qed.

(** ** The image of a photo *)

(** X3. For a previewed photo currentImage always returns what it leaves
    in _cache.  Once _cacheStatus is CacheLoaded it changes nothing.
    Before that: if the photo is loaded it caches the sharp large image
    and sets CacheLoaded, asking for nothing; otherwise it asks for the
    photo to be loaded on every call and, while _cacheStatus is
    CacheNotLoaded, caches the blurred version of the first that is
    there of the thumbnail, the small thumbnail and the inline
    thumbnail, setting CacheThumbLoaded, or, when none is there, asks
    for the small thumbnail and leaves the cache as it is. *)
Theorem currentImage_photo_order :
  forall (env : Env) (w : MediaPreviewWidget) (p : PhotoData),
    _document w = None -> _photo w = Some p ->
    (_cacheStatus w = CacheLoaded ->
     currentImage env w = Some (_cache w, w)) /\
    (_cacheStatus w <> CacheLoaded ->
     runs (currentImage env) w (fun pixmap w' =>
       let s := dimensionsOf env w in
       let blurred image :=
         Image_pixBlurred env image (_origin w) (width s) (height s) in
       pixmap = _cache w' /\
       if photo_loaded p then
         _cache w' = Image_pix env (large p) (_origin w) (width s) (height s) /\
         _cacheStatus w' = CacheLoaded /\
         calls w' = calls w
       else
         match _cacheStatus w with
         | CacheNotLoaded =>
             if image_loaded (photo_thumbnail p) then
               _cache w' = blurred (photo_thumbnail p) /\
               _cacheStatus w' = CacheThumbLoaded /\
               calls w' = calls w ++ [CallPhotoLoad (_origin w)]
             else if image_loaded (thumbnailSmall p) then
               _cache w' = blurred (thumbnailSmall p) /\
               _cacheStatus w' = CacheThumbLoaded /\
               calls w' = calls w ++ [CallPhotoLoad (_origin w)]
             else
               match photo_thumbnailInline p with
               | Some inline =>
                   _cache w' = blurred inline /\
                   _cacheStatus w' = CacheThumbLoaded /\
                   calls w' = calls w ++ [CallPhotoLoad (_origin w)]
               | None =>
                   _cache w' = _cache w /\
                   _cacheStatus w' = CacheNotLoaded /\
                   calls w'
                   = calls w ++ [CallPhotoLoad (_origin w);
                                 CallPhotoThumbnailSmallLoad (_origin w)]
               end
         | _ =>
             _cache w' = _cache w /\
             _cacheStatus w' = _cacheStatus w /\
             calls w' = calls w ++ [CallPhotoLoad (_origin w)]
         end)).
Proof.
  intros env w p Hd Hp. split.
  - intros Hs. unfold currentImage, bind, gets. rewrite Hd, Hp.
    unfold currentImage_photo, bind, gets, when. rewrite Hs. reflexivity.
  - intros Hs.
    unfold currentImage. apply runs_bind, runs_gets. apply runs_bind, runs_gets.
    rewrite Hd, Hp.
    unfold currentImage_photo, cachePix, cachePixBlurred.
    wp_with known_size.
    all: cbv zeta; simpl in *; rewrite ?dimensionsOf_log.
    all: repeat match goal with
                | E : ?x = _ |- context [?x] => rewrite E
                end.
    all: try (split; [reflexivity |]).
    all: destruct (_cacheStatus w); simpl in *;
      try congruence; try discriminate;
      rewrite <- ?app_assoc; simpl; auto.
Qed.

Lemma currentImage_photo_order_witness :
  runs (currentImage sampleEnv)
       (after (showPreview_photo sampleEnv 1 samplePhoto) sampleWidget)
       (fun pixmap w' =>
          pixmap = mkQPixmap 984 492 10 /\ _cacheStatus w' = CacheLoaded).
Proof.
  destruct (currentImage_photo_order sampleEnv
              (after (showPreview_photo sampleEnv 1 samplePhoto) sampleWidget)
              samplePhoto eq_refl eq_refl) as [_ Hfresh].
  eapply runs_weaken; [apply Hfresh; vm_compute; discriminate |].
  cbv beta zeta. intros pixmap w' [-> H].
  change (photo_loaded samplePhoto) with true in H. cbv iota in H.
  destruct H as (-> & Hs & _). split; [vm_compute; reflexivity | exact Hs].
Defined.

(** ** The clip reader of an animation *)

(** The reader and the calls that [currentImage] leaves behind for a
    document that is not a sticker. *)
Lemma currentImage_animation_reader :
  forall (env : Env) (w : MediaPreviewWidget) (d : DocumentData),
    _document w = Some d -> sticker d = None ->
    runs (currentImage env) w (fun _ w' =>
      _gif w' = (if document_loaded d
                 then match _gif w with
                      | ReaderNull => MakeReader env d
                      | kept => kept
                      end
                 else _gif w) /\
      exists rest,
        calls w' = calls w ++ CallDocumentAutomaticLoad (_origin w) :: rest /\
        (In CallGifSetAutoplay rest <->
         document_loaded d = true /\ _gif w = ReaderNull /\
         ReaderPointer_bool (MakeReader env d) = true)).
Proof.
  intros env w d Hd Hs.
  unfold currentImage. apply runs_bind, runs_gets. apply runs_bind, runs_gets.
  rewrite Hd, Hs.
  unfold currentImage_animation, cachePixBlurred.
  wp_with known_size.
  all: simpl in *.
  all: repeat match goal with
              | E : _ && _ = true |- _ => apply andb_prop in E; destruct E
              end.
  all: match goal with
       | |- context [document_loaded ?x] =>
           destruct (document_loaded x) eqn:Hl
       end;
    match goal with
    | |- context [match _gif ?x with _ => _ end] => destruct (_gif x) eqn:Hg
    | |- context [_gif ?x] => destruct (_gif x) eqn:Hg
    end;
    simpl in *; try discriminate; try congruence.
  all: split; [try reflexivity; try congruence |].
  all: rewrite <- ?app_assoc; simpl;
    eexists; (split; [reflexivity |]).
  all: simpl; split;
    [ intros Hin;
      repeat (destruct Hin as [Hin | Hin]; try discriminate);
      try contradiction; repeat split; congruence
    | intros (Hx & Hy & Hz); try discriminate; try congruence;
      repeat match goal with
             | E : MakeReader _ _ = _ |- _ => rewrite E in Hz
             end;
      try discriminate; auto ].
Qed.

(** X4. For a previewed document that is not a sticker, currentImage
    first asks for the document to be loaded, on every call.  It makes a
    clip reader only when the document is loaded and _gif is null: a
    reader that exists is kept, a reader marked bad is not replaced, and
    nothing is made while the document is not loaded.  setAutoplay is
    called exactly when a reader was made and is valid. *)
Theorem currentImage_reader_lifecycle :
  forall (env : Env) (w : MediaPreviewWidget) (d : DocumentData),
    _document w = Some d -> sticker d = None ->
    runs (currentImage env) w (fun _ w' =>
      _gif w' = (if document_loaded d
                 then match _gif w with
                      | ReaderNull => MakeReader env d
                      | kept => kept
                      end
                 else _gif w) /\
      exists rest,
        calls w' = calls w ++ CallDocumentAutomaticLoad (_origin w) :: rest /\
        (In CallGifSetAutoplay rest <->
         document_loaded d = true /\ _gif w = ReaderNull /\
         ReaderPointer_bool (MakeReader env d) = true)).
Proof. exact currentImage_animation_reader. Qed.

Lemma currentImage_reader_lifecycle_witness :
  runs (currentImage sampleEnv)
       (after (showPreview_document sampleEnv 1 sampleAnimation) sampleWidget)
       (fun _ w' => _gif w' = ReaderNull).
Proof.
  eapply runs_weaken.
  - apply (currentImage_reader_lifecycle sampleEnv
             (after (showPreview_document sampleEnv 1 sampleAnimation) sampleWidget)
             sampleAnimation); vm_compute; reflexivity.
  - cbv beta. intros _ w' [Hg _]. rewrite Hg. vm_compute. reflexivity.
Defined.


Lemma runs_conj {A : Type} (m : M A) (w : MediaPreviewWidget)
  (P Q : A -> MediaPreviewWidget -> Prop) :
  runs m w P -> runs m w Q -> runs m w (fun a w' => P a w' /\ Q a w').
Proof.
  intros (a & w1 & E1 & HP) (b & w2 & E2 & HQ).
  rewrite E1 in E2. injection E2 as <- <-.
  exists a, w1. auto.
Qed.

Lemma currentImage_started_frame (env : Env) (w : MediaPreviewWidget)
  (d : DocumentData) (r : ClipReader) :
  _document w = Some d -> _photo w = None -> sticker d = None ->
  _gif w = ReaderValid r -> clip_started r = true ->
  currentImage env w
  = Some (Reader_current env r
            (width (dimensionsOf env w)) (height (dimensionsOf env w))
            (if isGifPausedAtLeastFor_MediaPreview (_controller w)
             then 0 else crl_now env),
          log (CallDocumentAutomaticLoad (_origin w)) w).
Proof.
  intros Hd Hp Hs Hg Hstarted.
  unfold currentImage, bind, gets. rewrite Hd, Hs.
  unfold currentImage_animation, bind, gets, modify, when, ret. simpl.
  rewrite Hg. simpl.
  replace (document_loaded d && false && true) with false
    by (destruct (document_loaded d); reflexivity).
  simpl. rewrite Hg, Hstarted.
  rewrite currentDimensions_document by (simpl; congruence).
  rewrite dimensionsOf_log. reflexivity.
Qed.

(** X5. While a valid clip reader has started, currentImage returns the
    reader's current frame at the present size, asking for time 0 when
    the gifs are paused for MediaPreview and for the current time when
    they are not; it asks for the document to be loaded and changes
    nothing else, the cached pixmap included. *)
Theorem currentImage_started_reader :
  forall (env : Env) (w : MediaPreviewWidget) (d : DocumentData) (r : ClipReader),
    _document w = Some d -> _photo w = None -> sticker d = None ->
    _gif w = ReaderValid r -> clip_started r = true ->
    currentImage env w
    = Some (Reader_current env r
              (width (dimensionsOf env w)) (height (dimensionsOf env w))
              (if isGifPausedAtLeastFor_MediaPreview (_controller w)
               then 0 else crl_now env),
            log (CallDocumentAutomaticLoad (_origin w)) w).
Proof. intros env w d r. apply currentImage_started_frame. Qed.

Lemma currentImage_started_reader_witness :
  currentImage sampleEnv playingAnimation
  = Some (mkQPixmap 512 288 3,
          log (CallDocumentAutomaticLoad 1) playingAnimation).
Proof.
  rewrite (currentImage_started_reader sampleEnv playingAnimation
             sampleAnimation sampleReader);
    vm_compute; reflexivity.
Defined.

Lemma clipCallback_facts (env : Env) (notification : Notification)
  (w : MediaPreviewWidget) :
  runs (clipCallback env notification) w (fun _ w' =>
    quiet w w' /\
    _cache w' = _cache w /\ _cacheStatus w' = _cacheStatus w /\
    _lottie w' = _lottie w /\
    _gif w' = match notification, _gif w with
              | NotificationReinit, ReaderValid r =>
                  if clip_error r then ReaderBad else ReaderValid r
              | _, kept => kept
              end /\
    match notification with
    | NotificationReinit =>
        calls w'
        = calls w
          ++ match _gif w with
             | ReaderValid r =>
                 if negb (clip_error r) && clip_ready r && negb (clip_started r)
                 then [CallGifStart (width (dimensionsOf env w))
                                    (height (dimensionsOf env w))]
                 else []
             | _ => []
             end
          ++ [CallUpdate]
    | NotificationRepaint =>
        match _gif w with
        | ReaderValid r =>
            if clip_currentDisplayed r then w' = w
            else calls w'
                 = calls w
                   ++ [CallUpdateRect
                         (mkQRect
                            (int_div (int_sub (width (size w))
                                              (width (dimensionsOf env w))) 2)
                            (int_div (int_sub (height (size w))
                                              (height (dimensionsOf env w))) 2)
                            (width (dimensionsOf env w))
                            (height (dimensionsOf env w)))]
        | _ => w' = w
        end
    end).
Proof.
  apply runs_conj; [apply clipCallback_quiet |].
  unfold clipCallback, update, updateArea. destruct notification.
  - wp_with known_size; simpl in *.
    all: destruct (_gif w) as [| | r] eqn:Hg; simpl in *; try discriminate.
    all: try (destruct (clip_error r) eqn:He; simpl in *; try discriminate).
    all: repeat split; try reflexivity.
    all: match goal with
         | E : clip_ready _ && negb (clip_started _) = _ |- _ => rewrite E
         end.
    all: rewrite <- ?app_assoc; reflexivity.
  - wp_with known_size; simpl in *.
    all: destruct (_gif w) as [| | r] eqn:Hg; simpl in *; try discriminate.
    all: try (destruct (clip_currentDisplayed r) eqn:He;
              simpl in *; try discriminate).
    all: repeat split; try reflexivity; try (eexists; reflexivity).
Qed.

(** X6. clipCallback leaves the item, the emoji, the visibility, the
    animation, the cached pixmap, the cache status and the lottie player
    alone.  It changes _gif in one case only: on NotificationReinit a
    valid reader in the error state is marked bad.  NotificationReinit
    starts a valid reader that is ready and not started, at the present
    size, and always ends by asking for a repaint of the whole widget,
    and it makes no other call.  NotificationRepaint asks for one
    repaint, of the rectangle updateArea() answers with (the present
    size centred in the widget), only when a valid reader has a frame
    not yet displayed, and otherwise changes nothing at all. *)
Theorem clipCallback_effect :
  forall (env : Env) (notification : Notification) (w : MediaPreviewWidget),
    runs (clipCallback env notification) w (fun _ w' =>
      quiet w w' /\
      _cache w' = _cache w /\ _cacheStatus w' = _cacheStatus w /\
      _lottie w' = _lottie w /\
      _gif w' = match notification, _gif w with
                | NotificationReinit, ReaderValid r =>
                    if clip_error r then ReaderBad else ReaderValid r
                | _, kept => kept
                end /\
      match notification with
      | NotificationReinit =>
          calls w'
          = calls w
            ++ match _gif w with
               | ReaderValid r =>
                   if negb (clip_error r) && clip_ready r && negb (clip_started r)
                   then [CallGifStart (width (dimensionsOf env w))
                                      (height (dimensionsOf env w))]
                   else []
               | _ => []
               end
            ++ [CallUpdate]
      | NotificationRepaint =>
          match _gif w with
          | ReaderValid r =>
              if clip_currentDisplayed r then w' = w
              else calls w'
                   = calls w
                     ++ [CallUpdateRect
                           (mkQRect
                              (int_div (int_sub (width (size w))
                                                (width (dimensionsOf env w))) 2)
                              (int_div (int_sub (height (size w))
                                                (height (dimensionsOf env w))) 2)
                              (width (dimensionsOf env w))
                              (height (dimensionsOf env w)))]
          | _ => w' = w
          end
      end).
Proof. exact clipCallback_facts. Qed.

(** X7. A reader that failed is not made again: after
    NotificationReinit has found the reader of a previewed animation in
    the error state, the next currentImage leaves _gif bad, also when
    the document is loaded. *)
Theorem failed_reader_is_not_remade :
  forall (env : Env) (w : MediaPreviewWidget) (d : DocumentData) (r : ClipReader),
    _document w = Some d -> sticker d = None ->
    _gif w = ReaderValid r -> clip_error r = true ->
    runs (clipCallback env NotificationReinit ;; currentImage env) w
      (fun _ w' => _gif w' = ReaderBad).
Proof.
  intros env w d r Hd Hs Hg He.
  apply runs_bind.
  eapply runs_weaken; [apply clipCallback_facts |].
  cbv beta. intros _ w1 (Hq & _ & _ & _ & Hgif & _).
  rewrite Hg, He in Hgif.
  assert (Hd1 : _document w1 = Some d).
  { destruct Hq as [Hshell _]. unfold sameShell in Hshell.
    decompose [and] Hshell. congruence. }
  eapply runs_weaken; [apply (currentImage_animation_reader env w1 d Hd1 Hs) |].
  cbv beta. intros _ w' [Hgif' _]. rewrite Hgif', Hgif.
  destruct (document_loaded d); reflexivity.
Qed.

Lemma failed_reader_is_not_remade_witness :
  runs (clipCallback sampleEnv NotificationReinit ;; currentImage sampleEnv)
       failedAnimation
       (fun _ w' => _gif w' = ReaderBad).
Proof.
  apply (failed_reader_is_not_remade sampleEnv failedAnimation
           sampleLoadedAnimation sampleFailedReader);
    vm_compute; reflexivity.
Defined.

(** ** Where the preview is drawn *)

Lemma half_centred (total extent : Z) :
  int_ok total -> 0 <= extent <= total ->
  centredIn total (int_div (int_sub total extent) 2) extent.
Proof.
  unfold int_ok, int_min, int_max, centredIn, int_div, int_sub.
  intros Ht He.
  rewrite (wrap_small (total - extent)) by (unfold int_ok, int_min, int_max; lia).
  rewrite Z.quot_div_nonneg by lia.
  pose proof (Z.div_mod (total - extent) 2 ltac:(lia)) as Hdm.
  pose proof (Z.mod_pos_bound (total - extent) 2 ltac:(lia)) as Hm.
  rewrite wrap_small by (unfold int_ok, int_min, int_max; lia).
  lia.
Qed.

Lemma updateArea_rect (env : Env) (w : MediaPreviewWidget) :
  runs (updateArea env) w (fun area _ =>
    area = mkQRect
             (int_div (int_sub (width (size w)) (width (dimensionsOf env w))) 2)
             (int_div (int_sub (height (size w)) (height (dimensionsOf env w))) 2)
             (width (dimensionsOf env w)) (height (dimensionsOf env w))).
Proof.
  unfold updateArea. wp_with known_size. reflexivity.
Qed.

(** X8. updateArea is the rectangle of the present size centred in the
    widget: whenever that size is no larger than the widget, the
    rectangle lies inside the widget and the space to its right (below
    it) is the space to its left (above it) or one pixel more. *)
Theorem updateArea_centred :
  forall (env : Env) (w : MediaPreviewWidget),
    int_ok (width (size w)) -> int_ok (height (size w)) ->
    0 <= width (dimensionsOf env w) <= width (size w) ->
    0 <= height (dimensionsOf env w) <= height (size w) ->
    runs (updateArea env) w (fun area _ =>
      rw area = width (dimensionsOf env w) /\
      rh area = height (dimensionsOf env w) /\
      centredIn (width (size w)) (rx area) (rw area) /\
      centredIn (height (size w)) (ry area) (rh area)).
Proof.
  intros env w Hw Hh Hsw Hsh.
  eapply runs_weaken; [apply updateArea_rect |].
  cbv beta. intros area _ ->. cbn [rx ry rw rh].
  repeat split; try reflexivity; apply half_centred; assumption.
Qed.

Lemma updateArea_centred_witness :
  runs (updateArea sampleEnv) playingAnimation (fun area _ =>
    rw area = 512 /\ rh area = 288 /\
    centredIn 1000 (rx area) (rw area) /\
    centredIn 800 (ry area) (rh area)).
Proof.
  eapply runs_weaken.
  - apply (updateArea_centred sampleEnv playingAnimation);
      vm_compute; split; discriminate.
  - cbv beta. intros area _ (-> & -> & Hx & Hy).
    change (width (size playingAnimation)) with 1000 in Hx.
    change (height (size playingAnimation)) with 800 in Hy.
    split; [vm_compute; reflexivity |].
    split; [vm_compute; reflexivity |].
    split; assumption.
Defined.

(** X9. A photo keeps its margins: when the size of a previewed photo
    is computed (_cachedSize empty) in a widget at least one pixel wider
    and higher than twice st::boxVerticalMargin, the area of the preview
    stays that margin away from each edge of the widget. *)
Theorem photo_keeps_margins :
  forall (env : Env) (w : MediaPreviewWidget) (p : PhotoData),
    _photo w = Some p ->
    QSize_isEmpty (_cachedSize w) = true ->
    0 <= boxVerticalMargin env ->
    int_ok (width (size w)) -> int_ok (height (size w)) ->
    1 <= width (size w) - 2 * boxVerticalMargin env ->
    1 <= height (size w) - 2 * boxVerticalMargin env ->
    runs (updateArea env) w (fun area _ =>
      boxVerticalMargin env <= rx area /\
      rx area + rw area <= width (size w) - boxVerticalMargin env /\
      boxVerticalMargin env <= ry area /\
      ry area + rh area <= height (size w) - boxVerticalMargin env).
Proof.
  intros env w p Hp He Hm Hw Hh Hbw Hbh.
  assert (Hbox : photoBox env w
                 = mkQSize (width (size w) - 2 * boxVerticalMargin env)
                           (height (size w) - 2 * boxVerticalMargin env)).
  { unfold int_ok, int_min, int_max in *.
    apply photoBox_plain; unfold int_ok, int_min, int_max; lia. }
  assert (Hs : dimensionsOf env w
               = fitted env (photoBox env w)
                   (mkQSize (photo_width p) (photo_height p))).
  { unfold dimensionsOf.
    destruct (currentDimensions_fresh env w He) as [Hphoto _].
    rewrite (Hphoto p Hp). reflexivity. }
  assert (Hfit : fitsInside (dimensionsOf env w)
                   (mkQSize (width (size w) - 2 * boxVerticalMargin env)
                            (height (size w) - 2 * boxVerticalMargin env))).
  { rewrite Hs, Hbox. apply fitted_fits; simpl; assumption. }
  unfold fitsInside in Hfit. cbn [width height] in Hfit.
  destruct Hfit as [Hfw Hfh].
  eapply runs_weaken; [apply updateArea_rect |].
  cbv beta. intros area _ ->. cbn [rx ry rw rh].
  pose proof (half_centred (width (size w)) (width (dimensionsOf env w))
                Hw ltac:(lia)) as (Hx0 & Hx1 & Hx2).
  pose proof (half_centred (height (size w)) (height (dimensionsOf env w))
                Hh ltac:(lia)) as (Hy0 & Hy1 & Hy2).
  lia.
Qed.

Lemma photo_keeps_margins_witness :
  runs (updateArea sampleEnv)
       (after (showPreview_photo sampleEnv 1 samplePhoto) sampleWidget)
       (fun area _ =>
          8 <= rx area /\ rx area + rw area <= 1000 - 8 /\
          8 <= ry area /\ ry area + rh area <= 800 - 8).
Proof.
  apply (photo_keeps_margins sampleEnv
           (after (showPreview_photo sampleEnv 1 samplePhoto) sampleWidget)
           samplePhoto).
  - vm_compute. reflexivity.
  - vm_compute. reflexivity.
  - vm_compute. discriminate.
  - vm_compute. split; discriminate.
  - vm_compute. split; discriminate.
  - vm_compute. discriminate.
  - vm_compute. discriminate.
Defined.

(** ** Painting *)

(** With no item and no player, [paintEvent] fetches the cached pixmap
    and touches nothing. *)
Lemma paintEvent_source_idle (env : Env) (w : MediaPreviewWidget) :
  _document w = None -> _photo w = None -> _lottie w = None ->
  paintEvent_source env w = Some ((QImage_null, _cache w), w).
Proof.
  intros Hd Hp Hl.
  unfold paintEvent_source, currentImage, bind, gets, ret.
  rewrite Hl. simpl. rewrite Hd, Hp. reflexivity.
Qed.

(** With a ready player and a frame, [paintEvent] fetches the frame and
    only marks it shown. *)
Lemma paintEvent_source_lottie (env : Env) (w : MediaPreviewWidget)
  (player : SinglePlayer) :
  _lottie w = Some player -> lottie_ready player = true ->
  QImage_isNull (lottie_frame player) = false ->
  paintEvent_source env w
  = Some ((lottie_frame player, QPixmap_null), log CallLottieMarkFrameShown w).
Proof.
  intros Hl Hr Hn.
  unfold paintEvent_source, bind, gets, ret, modify.
  rewrite Hl. simpl. rewrite Hr, Hn. reflexivity.
Qed.

(** X10. The lottie frame takes precedence: when the player is ready
    and has a frame, a paint event that does not hide the widget draws
    that frame, at its size divided by the retina factor and centred by
    `int` division, marks the frame shown, and leaves everything else
    untouched: currentImage is not called, nothing is cached and nothing
    is asked to load. *)
Theorem paintEvent_draws_lottie_frame :
  forall (env : Env) (w : MediaPreviewWidget) (player : SinglePlayer),
    _lottie w = Some player -> lottie_ready player = true ->
    QImage_isNull (lottie_frame player) = false ->
    negb (animating (_a_shown w)) && _hiding w = false ->
    paintEvent env w
    = Some (PaintedImage
              (mkQRect
                 (int_div (int_sub (width (size w))
                             (int_div (img_width (lottie_frame player))
                                (cIntRetinaFactor env))) 2)
                 (int_div (int_sub (height (size w))
                             (int_div (img_height (lottie_frame player))
                                (cIntRetinaFactor env))) 2)
                 (int_div (img_width (lottie_frame player)) (cIntRetinaFactor env))
                 (int_div (img_height (lottie_frame player)) (cIntRetinaFactor env)))
              (lottie_frame player),
            log CallLottieMarkFrameShown w).
Proof.
  intros env w player Hl Hr Hn Hshown.
  unfold paintEvent, bind.
  rewrite (paintEvent_source_lottie env w player Hl Hr Hn).
  unfold gets, ret. simpl. rewrite Hshown.
  unfold paintEvent_draw. simpl. rewrite Hn. reflexivity.
Qed.

Lemma paintEvent_draws_lottie_frame_witness :
  paintEvent sampleEnv lottieSticker
  = Some (PaintedImage (mkQRect 372 272 256 256) (mkQImage 256 256 77),
          log CallLottieMarkFrameShown lottieSticker).
Proof.
  rewrite (paintEvent_draws_lottie_frame sampleEnv lottieSticker
             (mkSinglePlayer 1 true (mkQImage 256 256 77)));
    vm_compute; reflexivity.
Defined.

Lemma paintEvent_idle (env : Env) (w : MediaPreviewWidget) :
  _document w = None -> _photo w = None -> _lottie w = None ->
  paintEvent env w
  = Some (if negb (animating (_a_shown w)) && _hiding w
          then (PaintedNothing,
                set_controller
                  (mkSessionController false
                     (isGifPausedAtLeastFor_MediaPreview (_controller w)))
                  (set_isHidden true w))
          else (paintEvent_draw env QImage_null (_cache w) (size w), w)).
Proof.
  intros Hd Hp Hl. unfold paintEvent, bind.
  rewrite (paintEvent_source_idle env w Hd Hp Hl).
  unfold gets, ret, hide, disableGifPauseReason, modify, bind. simpl.
  destruct (negb (animating (_a_shown w)) && _hiding w); reflexivity.
Qed.

Lemma step_AnimationFinished (env : Env) (w : MediaPreviewWidget) :
  animating (_a_shown w) = true ->
  step env AnimationFinished w
  = Some (tt, log CallUpdate (set_a_shown (Animation_finish (_a_shown w)) w)).
Proof.
  intros Ha. unfold step, bind, gets, when, modify, update. rewrite Ha.
  reflexivity.
Qed.

(** ** A whole fade-out *)

(** X11. From a visible widget, hidePreview, the end of the animation
    and the next paint event leave the widget hidden, with the
    MediaPreview gif-pause reason disabled, no item, no clip reader, no
    lottie player and nothing marked as cached; a paint event that comes
    before the animation has ended draws and leaves the widget visible. *)
Theorem fade_out_ends_hidden :
  forall (env : Env) (w : MediaPreviewWidget),
    isHidden w = false ->
    runs (run env [HidePreview; AnimationFinished; Paint]) w (fun _ w' =>
      isHidden w' = true /\
      gifPauseMediaPreview (_controller w') = false /\
      _photo w' = None /\ _document w' = None /\
      _gif w' = ReaderNull /\ _lottie w' = None /\
      _cacheStatus w' = CacheNotLoaded) /\
    runs (run env [HidePreview; Paint]) w (fun _ w' =>
      isHidden w' = false /\ _hiding w' = true /\
      animating (_a_shown w') = true).
Proof.
  intros env w Hv. split.
  - change (run env [HidePreview; AnimationFinished; Paint])
      with (bind (hidePreview env)
              (fun _ => bind (step env AnimationFinished)
                 (fun _ => bind (bind (paintEvent env) (fun _ => ret tt))
                    (fun _ => ret tt)))).
    apply runs_bind.
    eapply runs_weaken; [apply hidePreview_visible; exact Hv |].
    cbv beta. intros _ w1 H1. decompose [and] H1. clear H1.
    apply runs_bind.
    exists tt. eexists. split.
    { apply step_AnimationFinished.
      match goal with E : _a_shown w1 = _ |- _ => rewrite E end. reflexivity. }
    apply runs_bind. apply runs_bind.
    exists PaintedNothing. eexists. split.
    { rewrite paintEvent_idle by (simpl; assumption). simpl.
      match goal with E : _hiding w1 = true |- _ => rewrite E end.
      reflexivity. }
    apply runs_ret. apply runs_ret. simpl.
    repeat split; assumption.
  - change (run env [HidePreview; Paint])
      with (bind (hidePreview env)
              (fun _ => bind (bind (paintEvent env) (fun _ => ret tt))
                 (fun _ => ret tt))).
    apply runs_bind.
    eapply runs_weaken; [apply hidePreview_visible; exact Hv |].
    cbv beta. intros _ w1 H1. decompose [and] H1. clear H1.
    apply runs_bind. apply runs_bind.
    eexists. exists w1. split.
    { rewrite paintEvent_idle by assumption.
      match goal with E : _a_shown w1 = _ |- _ => rewrite E end.
      reflexivity. }
    apply runs_ret. apply runs_ret.
    match goal with E : _a_shown w1 = _ |- _ => rewrite E end.
    repeat split; assumption.
Qed.

Lemma fade_out_ends_hidden_witness :
  runs (run sampleEnv [HidePreview; AnimationFinished; Paint])
       (after (showPreview_photo sampleEnv 1 samplePhoto) sampleWidget)
       (fun _ w' =>
          isHidden w' = true /\
          gifPauseMediaPreview (_controller w') = false /\
          _photo w' = None /\ _document w' = None /\
          _gif w' = ReaderNull /\ _lottie w' = None /\
          _cacheStatus w' = CacheNotLoaded).
Proof.
  destruct (fade_out_ends_hidden sampleEnv
              (after (showPreview_photo sampleEnv 1 samplePhoto) sampleWidget))
    as [Hcycle _].
  - vm_compute. reflexivity.
  - exact Hcycle.
Defined.

(** ** What hidePreview keeps for the fade-out *)

(** X12. hidePreview on a visible widget keeps the picture to fade out.
    Without a valid clip reader it does not call currentImage: the
    cached pixmap and the call log stay as they are.  With a valid
    reader that has started, the reader's current frame becomes the
    cached pixmap before the item and the reader are dropped; from then
    on currentImage returns that frame and changes nothing, and the
    size of the preview is the frame's size divided by the retina
    factor. *)
Theorem hidePreview_keeps_picture :
  forall (env : Env) (w : MediaPreviewWidget),
    isHidden w = false ->
    (ReaderPointer_bool (_gif w) = false ->
     runs (hidePreview env) w (fun _ w' =>
       _cache w' = _cache w /\ calls w' = calls w)) /\
    (forall d r,
        _document w = Some d -> _photo w = None -> sticker d = None ->
        _gif w = ReaderValid r -> clip_started r = true ->
        runs (hidePreview env) w (fun _ w' =>
          let frame :=
            Reader_current env r
              (width (dimensionsOf env w)) (height (dimensionsOf env w))
              (if isGifPausedAtLeastFor_MediaPreview (_controller w)
               then 0 else crl_now env) in
          _cache w' = frame /\
          _document w' = None /\ _photo w' = None /\ _gif w' = ReaderNull /\
          currentImage env w' = Some (frame, w') /\
          dimensionsOf env w'
          = mkQSize (int_div (pm_width frame) (cIntRetinaFactor env))
                    (int_div (pm_height frame) (cIntRetinaFactor env)))).
Proof.
  intros env w Hv. split.
  - intros Hg. unfold hidePreview, resetGifAndCache.
    apply runs_bind, runs_gets. rewrite Hv.
    apply runs_bind, runs_gets. rewrite Hg.
    wp_with no_calls; [discriminate |]. simpl. auto.
  - intros d r Hd Hp Hs Hg Hstarted.
    unfold hidePreview, resetGifAndCache.
    apply runs_bind, runs_gets. rewrite Hv.
    apply runs_bind, runs_gets. rewrite Hg. simpl.
    apply runs_bind. apply runs_bind.
    eexists. eexists. split;
      [apply (currentImage_started_frame env w d r); assumption |].
    wp_with no_calls. cbv zeta. simpl.
    repeat split.
Qed.

Lemma hidePreview_keeps_picture_witness :
  runs (hidePreview sampleEnv) playingAnimation (fun _ w' =>
    _cache w' = mkQPixmap 512 288 3 /\ _document w' = None /\
    dimensionsOf sampleEnv w' = mkQSize 512 288).
Proof.
  destruct (hidePreview_keeps_picture sampleEnv playingAnimation)
    as [_ Hframe].
  - vm_compute. reflexivity.
  - eapply runs_weaken.
    + apply (Hframe sampleAnimation sampleReader); vm_compute; reflexivity.
    + cbv beta zeta. intros _ w' (Hc & Hd & _ & _ & _ & Hs).
      split; [rewrite Hc; vm_compute; reflexivity |].
      split; [exact Hd |].
      rewrite Hs. vm_compute. reflexivity.
Defined.

(** ** Showing on a widget that is fully shown *)

(** X13. On a visible widget whose animation is not running, showPreview
    does not start the fade-in: it only asks for a repaint and leaves
    _hiding, the animation and the controller as they are.  So when
    _hiding is still set there (the fade-out has ended and the repaint
    that would hide the widget has not come yet), the paint event that
    follows hides the widget with the new photo in place. *)
Theorem showPreview_on_shown_widget :
  forall (env : Env) (origin : FileOrigin) (photo : PhotoData)
         (w : MediaPreviewWidget),
    isHidden w = false -> animating (_a_shown w) = false ->
    runs (showPreview_photo env origin photo) w (fun _ w' =>
      _hiding w' = _hiding w /\ _a_shown w' = _a_shown w /\
      _controller w' = _controller w /\
      calls w' = calls w ++ [CallUpdate]) /\
    (_hiding w = true ->
     runs (showPreview_photo env origin photo ;; paintEvent env) w
       (fun painted w' =>
          painted = PaintedNothing /\ isHidden w' = true /\
          _photo w' = Some photo)).
Proof.
  intros env origin photo w Hv Ha.
  assert (Hshow : runs (showPreview_photo env origin photo) w (fun _ w' =>
            (_hiding w' = _hiding w /\ _a_shown w' = _a_shown w /\
             _controller w' = _controller w /\
             calls w' = calls w ++ [CallUpdate]) /\
            _photo w' = Some photo)).
  { eapply runs_weaken; [apply showPreview_photo_effect |].
    cbv beta. intros _ w' ((_ & Hshown) & H). decompose [and] H. clear H.
    rewrite Hv, Ha in Hshown. simpl in Hshown.
    destruct Hshown as [Hs | Hs]; decompose [and] Hs; [discriminate |].
    auto. }
  split.
  - eapply runs_weaken; [exact Hshow | cbv beta; tauto].
  - intros Hh. apply runs_bind.
    eapply runs_weaken; [exact Hshow |].
    cbv beta. intros _ w1 ((Hh1 & Ha1 & _) & Hp1).
    eapply runs_weaken; [apply paintEvent_effect |].
    cbv beta. intros painted w' (w2 & Hq & H).
    rewrite Ha1, Hh1, Ha, Hh in H. simpl in H. destruct H as [-> ->].
    destruct Hq as [Hshell _]. unfold sameShell in Hshell.
    decompose [and] Hshell. simpl. repeat split; congruence.
Qed.

Lemma showPreview_on_shown_widget_witness :
  runs (showPreview_photo sampleEnv 2 samplePhoto ;; paintEvent sampleEnv)
       (after (run sampleEnv
                 [ShowPhoto 1 samplePhoto; HidePreview; AnimationFinished])
              sampleWidget)
       (fun painted w' =>
          painted = PaintedNothing /\ isHidden w' = true /\
          _photo w' = Some samplePhoto).
Proof.
  destruct (showPreview_on_shown_widget sampleEnv 2 samplePhoto
              (after (run sampleEnv
                        [ShowPhoto 1 samplePhoto; HidePreview; AnimationFinished])
                     sampleWidget))
    as [_ Hhides].
  - vm_compute. reflexivity.
  - vm_compute. reflexivity.
  - apply Hhides. vm_compute. reflexivity.
Defined.

(** ** More that holds of every reachable state *)

Lemma expectedEmoji_short (env : Env) (photo : option PhotoData)
  (document : option DocumentData) :
  Z.of_nat (length (expectedEmoji env photo document)) <= kStickerPreviewEmojiLimit.
Proof.
  unfold expectedEmoji, kStickerPreviewEmojiLimit.
  destruct photo; [simpl; lia |].
  destruct document as [d|]; [| simpl; lia].
  destruct (sticker d) as [st|]; [| simpl; lia].
  destruct (GetEmojiListFromSet env d) as [list|].
  - rewrite length_firstn. lia.
  - destruct (EmojiFind env (alt st)); simpl; lia.
Qed.

Lemma currentImage_idle (env : Env) (w : MediaPreviewWidget) :
  runs (currentImage env) w (fun _ w' => idle w w').
Proof.
  destruct (_document w) as [d|] eqn:Hd.
  - eapply runs_weaken; [apply currentImage_quiet |].
    cbv beta. intros _ w' _. split; intros; congruence.
  - unfold currentImage. apply runs_bind, runs_gets. apply runs_bind, runs_gets.
    rewrite Hd. destruct (_photo w) as [p|] eqn:Hp.
    + unfold currentImage_photo, cachePix, cachePixBlurred.
      wp_with known_size; split; intros; simpl; try congruence; auto.
    + apply runs_gets. split; auto.
Qed.

Lemma paintEvent_idle_players (env : Env) (w : MediaPreviewWidget) :
  runs (paintEvent env) w (fun _ w' => idle w w').
Proof.
  assert (Hsource : runs (paintEvent_source env) w (fun _ w' => idle w w')).
  { unfold paintEvent_source. apply runs_bind, runs_gets. apply runs_bind.
    destruct (lottieReady (_lottie w)).
    - apply runs_bind, runs_modify. apply runs_ret.
      destruct (QImage_isNull _).
      + apply runs_bind.
        eapply runs_weaken; [apply currentImage_idle |].
        cbv beta. intros pixmap w' H. apply runs_ret. exact H.
      + apply runs_bind, runs_ret. apply runs_ret. split; auto.
    - apply runs_ret. simpl.
      apply runs_bind.
      eapply runs_weaken; [apply currentImage_idle |].
      cbv beta. intros pixmap w' H. apply runs_ret. exact H. }
  unfold paintEvent, hide, disableGifPauseReason. apply runs_bind.
  eapply runs_weaken; [exact Hsource |].
  cbv beta. intros source w1 H. wp_with no_calls; exact H.
Qed.

Lemma step_settled (env : Env) (e : Event) (w : MediaPreviewWidget) :
  settled w -> runs (step env e) w (fun _ w' => settled w').
Proof.
  intros (Hpause & Hshort & Hplayers & Hstatus).
  assert (Hw : settled w)
    by exact (conj Hpause (conj Hshort (conj Hplayers Hstatus))).
  assert (Hq : forall w1, quiet w w1 -> idle w w1 -> settled w1).
  { intros w1 [Hshell _] [Hp1 Hs1]. unfold sameShell in Hshell.
    destruct Hshell as (Hc & _ & _ & _ & Hd & Hp & _ & He & Hh & _).
    unfold settled. rewrite Hc, Hd, Hp, He, Hh.
    split; [exact Hpause |]. split; [exact Hshort |]. split.
    - intros Hn. destruct (Hp1 Hn) as [-> ->]. apply Hplayers. exact Hn.
    - intros Hn Hm. rewrite (Hs1 Hn Hm). apply Hstatus; assumption. }
  assert (Hhide : runs (hidePreview env) w (fun _ w' => settled w')).
  { destruct (isHidden w) eqn:Hh.
    - exists tt, w. split; [apply hidePreview_hidden; exact Hh | exact Hw].
    - eapply runs_weaken; [apply hidePreview_visible; exact Hh |].
      cbv beta.
      intros _ w' (_ & _ & Hp & Hd & Hl & Hg & Hs & _ & Hv & Hc & He & _).
      unfold settled. rewrite Hc, He.
      split; [intros _; apply Hpause; reflexivity |].
      split; [exact Hshort |]. split; auto. }
  assert (Hshown : forall w', startShown env w w' ->
                     gifPauseMediaPreview (_controller w') = true).
  { intros w' (_ & [Hs | Hs]); decompose [and] Hs; clear Hs.
    - match goal with E : gifPauseMediaPreview _ = _ |- _ => rewrite E end.
      destruct (isHidden w) eqn:Hh; [reflexivity | simpl; auto].
    - match goal with E : _controller w' = _ |- _ => rewrite E end.
      apply Hpause.
      destruct (isHidden w); [discriminate | reflexivity]. }
  destruct e; unfold step.
  - (* ShowDocument *)
    destruct (notPreviewable document) eqn:Hn.
    + rewrite showPreview_document_hides by exact Hn. exact Hhide.
    + eapply runs_weaken; [apply showPreview_document_effect; exact Hn |].
      cbv beta.
      intros _ w' (Hs & _ & Hp & Hd & He & Hl & Hg & Hc & _).
      unfold settled. rewrite He, Hd.
      split; [intros _; apply (Hshown w' Hs) |].
      split; [apply expectedEmoji_short |].
      split; intros; discriminate.
  - (* ShowPhoto *)
    eapply runs_weaken; [apply showPreview_photo_effect |].
    cbv beta.
    intros _ w' (Hs & _ & Hp & Hd & He & Hl & Hg & Hc & _).
    unfold settled. rewrite He, Hp.
    split; [intros _; apply (Hshown w' Hs) |].
    split; [simpl; unfold kStickerPreviewEmojiLimit; lia |].
    split; [auto | intros; discriminate].
  - exact Hhide.
  - (* Paint *)
    apply runs_bind.
    eapply runs_weaken;
      [apply (runs_conj _ _ _ _ (paintEvent_effect env w)
                (paintEvent_idle_players env w)) |].
    cbv beta. intros painted w' ((w1 & Hq1 & H) & Hidle). apply runs_ret.
    destruct (negb (animating (_a_shown w)) && _hiding w);
      destruct H as [_ ->].
    + assert (Hi1 : idle w w1) by exact Hidle.
      pose proof (Hq w1 Hq1 Hi1) as (_ & H2 & H3 & H4).
      unfold settled. simpl.
      split; [intros; discriminate |]. split; [exact H2 |].
      split; assumption.
    + exact (Hq w1 Hq1 Hidle).
  - (* Resize *)
    unfold resizeEvent, update. wp_with no_calls. exact Hw.
  - (* Clip *)
    eapply runs_weaken; [apply clipCallback_facts |].
    cbv beta. intros _ w' (Hq1 & _ & Hs & Hl & Hg & _).
    apply (Hq w' Hq1). split.
    + intros Hn. destruct (Hplayers Hn) as [Hgn _]. rewrite Hg, Hgn.
      split; [destruct notification; reflexivity | exact Hl].
    + intros _ _. exact Hs.
  - unfold update. wp_with no_calls. exact Hw.
  - unfold update. wp_with no_calls. exact Hw.
  - (* LottieDisplayFrameRequest *)
    unfold updateArea. wp_with known_size. exact Hw.
  - unfold update. wp_with no_calls. exact Hw.
  - unfold update. wp_with no_calls; exact Hw.
  - (* DocumentChanged *)
    wp_with no_calls; [| exact Hw].
    unfold settled. simpl.
    split; [exact Hpause |]. split; [exact Hshort |].
    split; intros; discriminate.
  - (* PhotoChanged *)
    wp_with no_calls; [| exact Hw].
    unfold settled. simpl.
    split; [exact Hpause |]. split; [exact Hshort |].
    split; [exact Hplayers | intros; discriminate].
  - (* ReaderChanged *)
    wp_with no_calls; [| exact Hw].
    unfold settled. simpl.
    split; [exact Hpause |]. split; [exact Hshort |].
    split.
    + intros Hn. destruct (Hplayers Hn) as [Hg Hl].
      match goal with E : ReaderPointer_bool (_gif w) = true |- _ =>
        rewrite Hg in E; discriminate E end.
    + exact Hstatus.
  - (* PlayerChanged *)
    wp_with no_calls; [| exact Hw].
    unfold settled. simpl.
    split; [exact Hpause |]. split; [exact Hshort |].
    split.
    + intros Hn. destruct (Hplayers Hn) as [Hg Hl].
      match goal with E : isSome (_lottie w) = true |- _ =>
        rewrite Hl in E; discriminate E end.
    + exact Hstatus.
Qed.

Lemma settled_new (env : Env) (controller : SessionController)
  (geometry : QSize) :
  settled (MediaPreviewWidget_new env controller geometry).
Proof.
  unfold settled, kStickerPreviewEmojiLimit. simpl.
  split; [intros; discriminate |]. split; [lia |]. split; auto.
Qed.

Lemma reachable_settled (env : Env) (w : MediaPreviewWidget) :
  reachable env w -> settled w.
Proof.
  induction 1 as [controller geometry | e w w' Hreach IH Hstep].
  - apply settled_new.
  - destruct (step_settled env e w IH) as (u & w2 & E & Hs).
    rewrite Hstep in E. injection E as _ <-. exact Hs.
Qed.

Lemma shownPhoto_reachable :
  reachable sampleEnv
    (after (showPreview_photo sampleEnv 1 samplePhoto) sampleWidget).
Proof.
  apply (reachable_step sampleEnv (ShowPhoto 1 samplePhoto) sampleWidget).
  - apply reachable_new.
  - vm_compute. reflexivity.
Qed.

(** X14. While the widget is visible the gifs are paused: in every
    reachable state a widget that is not hidden has the MediaPreview
    gif-pause reason enabled. *)
Theorem visible_widget_pauses_gifs :
  forall (env : Env) (w : MediaPreviewWidget),
    reachable env w -> isHidden w = false ->
    gifPauseMediaPreview (_controller w) = true.
Proof.
  intros env w Hreach.
  destruct (reachable_settled env w Hreach) as (Hpause & _). exact Hpause.
Qed.

Lemma visible_widget_pauses_gifs_witness :
  gifPauseMediaPreview
    (_controller (after (showPreview_photo sampleEnv 1 samplePhoto) sampleWidget))
  = true.
Proof.
  apply (visible_widget_pauses_gifs sampleEnv).
  - exact shownPhoto_reachable.
  - vm_compute. reflexivity.
Defined.

(** X15. In every reachable state the emoji row holds at most
    kStickerPreviewEmojiLimit = 10 emoji. *)
Theorem emoji_row_is_short :
  forall (env : Env) (w : MediaPreviewWidget),
    reachable env w ->
    Z.of_nat (length (_emojiList w)) <= kStickerPreviewEmojiLimit.
Proof.
  intros env w Hreach.
  destruct (reachable_settled env w Hreach) as (_ & Hshort & _). exact Hshort.
Qed.

Lemma emoji_row_is_short_witness :
  Z.of_nat
    (length (_emojiList
               (after (showPreview_photo sampleEnv 1 samplePhoto) sampleWidget)))
  <= kStickerPreviewEmojiLimit.
Proof.
  apply (emoji_row_is_short sampleEnv). exact shownPhoto_reachable.
Defined.

(** X16. Nothing decodes without a document: in every reachable state
    with _document null there is no clip reader and no lottie player,
    and when _photo is null as well the cache status is CacheNotLoaded. *)
Theorem no_players_without_document :
  forall (env : Env) (w : MediaPreviewWidget),
    reachable env w -> _document w = None ->
    _gif w = ReaderNull /\ _lottie w = None /\
    (_photo w = None -> _cacheStatus w = CacheNotLoaded).
Proof.
  intros env w Hreach Hd.
  destruct (reachable_settled env w Hreach) as (_ & _ & Hplayers & Hstatus).
  destruct (Hplayers Hd) as [Hg Hl]. auto.
Qed.

Lemma no_players_without_document_witness :
  _gif (after (showPreview_photo sampleEnv 1 samplePhoto) sampleWidget)
  = ReaderNull /\
  _lottie (after (showPreview_photo sampleEnv 1 samplePhoto) sampleWidget)
  = None.
Proof.
  destruct (no_players_without_document sampleEnv
              (after (showPreview_photo sampleEnv 1 samplePhoto) sampleWidget))
    as (Hg & Hl & _).
  - exact shownPhoto_reachable.
  - vm_compute. reflexivity.
  - split; assumption.
Defined.

(** ** The emoji row *)

Lemma size_t_wrap_small (z : Z) : 0 <= z <= int_max -> size_t_wrap z = z.
Proof.
  unfold size_t_wrap, int_max. intros H. apply Z.mod_small. lia.
Qed.

Lemma drawEmojiList_length (esize y advance emojiLeft : Z)
  (emojiList : list EmojiPtr) :
  length (drawEmojiList esize y advance emojiLeft emojiList) = length emojiList.
Proof.
  revert emojiLeft. induction emojiList as [| e rest IH]; intros emojiLeft; simpl.
  - reflexivity.
  - rewrite IH. reflexivity.
Qed.

Lemma drawEmojiList_nth (esize y advance : Z) (emojiList : list EmojiPtr) :
  0 <= advance ->
  forall (k : nat) (emojiLeft : Z) (emoji : EmojiPtr),
    0 <= emojiLeft ->
    emojiLeft + Z.of_nat k * advance <= int_max ->
    nth_error emojiList k = Some emoji ->
    nth_error (drawEmojiList esize y advance emojiLeft emojiList) k
    = Some (mkEmojiDraw emoji esize (emojiLeft + Z.of_nat k * advance) y).
Proof.
  intros Hadv.
  induction emojiList as [| e rest IH]; intros k emojiLeft emoji Hl Hmax Hnth.
  - destruct k; discriminate.
  - destruct k as [| k].
    + simpl in *. injection Hnth as ->.
      rewrite wrap_small by (unfold int_ok, int_min, int_max in *; lia).
      do 2 f_equal. lia.
    + rewrite Nat2Z.inj_succ in *.
      cbn [drawEmojiList nth_error] in *.
      assert (Hk : 0 <= Z.of_nat k) by lia.
      assert (Hstep : size_t_add emojiLeft (size_t_wrap advance)
                      = emojiLeft + advance).
      { unfold size_t_add.
        rewrite (size_t_wrap_small advance) by nia.
        apply size_t_wrap_small. nia. }
      rewrite Hstep.
      rewrite (IH k (emojiLeft + advance) emoji) by (try assumption; lia).
      do 2 f_equal. lia.
Qed.

Lemma paintEvent_emoji_nonempty (env : Env) (stickerEmojiSkip h : Z)
  (w : MediaPreviewWidget) :
  _emojiList w <> [] ->
  paintEvent_emoji env stickerEmojiSkip h w
  = drawEmojiList (GetSizeLarge env)
      (int_sub (int_div (int_sub (height (size w)) h) 2)
               (int_mul (_emojiSize w) 2))
      (int_add (_emojiSize w) stickerEmojiSkip)
      (Z.div
         (size_t_sub (size_t_wrap (width (size w)))
            (size_t_add
               (size_t_mul (size_t_wrap (Z.of_nat (length (_emojiList w))))
                  (size_t_wrap (_emojiSize w)))
               (size_t_mul
                  (size_t_sub (size_t_wrap (Z.of_nat (length (_emojiList w)))) 1)
                  (size_t_wrap stickerEmojiSkip))))
         2)
      (_emojiList w).
Proof.
  intros Hne. unfold paintEvent_emoji.
  destruct (_emojiList w); [congruence | reflexivity].
Qed.

(** The row as lines 82-96 lay it out, for any height [h] of the
    picture. *)
Lemma paintEvent_emoji_centred :
  forall (env : Env) (stickerEmojiSkip h : Z) (w : MediaPreviewWidget),
    let count := Z.of_nat (length (_emojiList w)) in
    let rowWidth := count * _emojiSize w + (count - 1) * stickerEmojiSkip in
    let rowLeft := (width (size w) - rowWidth) / 2 in
    _emojiList w <> [] ->
    0 < _emojiSize w -> 0 <= stickerEmojiSkip ->
    _emojiSize w + stickerEmojiSkip <= int_max ->
    rowWidth <= width (size w) -> width (size w) <= int_max ->
    length (paintEvent_emoji env stickerEmojiSkip h w) = length (_emojiList w) /\
    centredIn (width (size w)) rowLeft rowWidth /\
    forall (k : nat) (emoji : EmojiPtr),
      nth_error (_emojiList w) k = Some emoji ->
      nth_error (paintEvent_emoji env stickerEmojiSkip h w) k
      = Some (mkEmojiDraw emoji (GetSizeLarge env)
                (rowLeft + Z.of_nat k * (_emojiSize w + stickerEmojiSkip))
                (int_sub (int_div (int_sub (height (size w)) h) 2)
                         (int_mul (_emojiSize w) 2))).
Proof.
  intros env skip h w count rowWidth rowLeft Hne Hsize Hskip Hsum Hfit Hmax.
  assert (Hcount : 1 <= count).
  { subst count. destruct (_emojiList w); [congruence | simpl; lia]. }
  assert (Hrow : 0 <= rowWidth) by (subst rowWidth; nia).
  assert (Hc : size_t_wrap count = count)
    by (apply size_t_wrap_small; subst rowWidth; nia).
  assert (Hwidth :
            size_t_add (size_t_mul (size_t_wrap count) (size_t_wrap (_emojiSize w)))
              (size_t_mul (size_t_sub (size_t_wrap count) 1) (size_t_wrap skip))
            = rowWidth).
  { unfold size_t_add, size_t_mul, size_t_sub.
    rewrite Hc.
    rewrite (size_t_wrap_small (_emojiSize w)) by lia.
    rewrite (size_t_wrap_small skip) by lia.
    rewrite (size_t_wrap_small (count - 1)) by (subst rowWidth; nia).
    rewrite (size_t_wrap_small (count * _emojiSize w)) by (subst rowWidth; nia).
    rewrite (size_t_wrap_small ((count - 1) * skip)) by (subst rowWidth; nia).
    apply size_t_wrap_small. subst rowWidth. nia. }
  assert (Hleft :
            Z.div (size_t_sub (size_t_wrap (width (size w))) rowWidth) 2
            = rowLeft).
  { unfold size_t_sub.
    rewrite (size_t_wrap_small (width (size w))) by lia.
    rewrite size_t_wrap_small by lia. reflexivity. }
  assert (Hcentred : centredIn (width (size w)) rowLeft rowWidth).
  { unfold centredIn. subst rowLeft.
    pose proof (Z.div_mod (width (size w) - rowWidth) 2 ltac:(lia)) as Hdm.
    pose proof (Z.mod_pos_bound (width (size w) - rowWidth) 2 ltac:(lia)) as Hm.
    lia. }
  assert (Hadv : int_add (_emojiSize w) skip = _emojiSize w + skip).
  { unfold int_add. apply wrap_small.
    unfold int_ok, int_min, int_max in *. lia. }
  rewrite paintEvent_emoji_nonempty by exact Hne.
  fold count. rewrite Hwidth, Hleft, Hadv.
  split; [apply drawEmojiList_length |].
  split; [exact Hcentred |].
  intros k emoji Hnth.
  apply drawEmojiList_nth; try assumption; try lia.
  - destruct Hcentred; assumption.
  - assert (Hk : Z.of_nat k <= count - 1).
    { assert (k < length (_emojiList w))%nat
        by (apply nth_error_Some; congruence).
      subst count. lia. }
    destruct Hcentred as (H0 & H1 & _). subst rowWidth. nia.
Qed.

Lemma bind_some {A B : Type} (m : M A) (k : A -> M B)
  (w w1 : MediaPreviewWidget) (a : A) :
  m w = Some (a, w1) -> bind m k w = k a w1.
Proof. intros E. unfold bind. rewrite E. reflexivity. Qed.

Lemma Painted_top_draw (env : Env) (image : QImage) (pixmap : QPixmap)
  (g : QSize) :
  Painted_top (paintEvent_draw env image pixmap g)
  = int_div (int_sub (height g) (paintEvent_height env image pixmap)) 2.
Proof.
  unfold paintEvent_draw, paintEvent_height.
  destruct (QImage_isNull image); reflexivity.
Qed.

(** X17. paintEvent with its emoji row does and draws what paintEvent
    does and draws, and then the row.  A paint that hides the widget
    (_hiding set, animation over) draws no emoji.  Any other paint, when
    the emoji have a positive size, the skip between them is not
    negative and the row (every emoji _emojiSize wide,
    st::stickerEmojiSkip apart) is no wider than the widget (all within
    `int`), draws one emoji for each entry of the list, in order, all
    two emoji sizes above the top of the picture; the k-th is drawn at
    the left edge of the row plus k times size and skip, and the row is
    centred in the widget's width. *)
Theorem emoji_row_is_centred :
  forall (env : Env) (stickerEmojiSkip : Z) (w : MediaPreviewWidget),
    let count := Z.of_nat (length (_emojiList w)) in
    let rowWidth := count * _emojiSize w + (count - 1) * stickerEmojiSkip in
    let rowLeft := (width (size w) - rowWidth) / 2 in
    _emojiList w <> [] ->
    0 < _emojiSize w -> 0 <= stickerEmojiSkip ->
    _emojiSize w + stickerEmojiSkip <= int_max ->
    rowWidth <= width (size w) -> width (size w) <= int_max ->
    runs (paintEvent_withEmoji env stickerEmojiSkip) w (fun drawn w' =>
      paintEvent env w = Some (fst drawn, w') /\
      if negb (animating (_a_shown w)) && _hiding w
      then snd drawn = []
      else
        length (snd drawn) = length (_emojiList w) /\
        centredIn (width (size w)) rowLeft rowWidth /\
        forall (k : nat) (emoji : EmojiPtr),
          nth_error (_emojiList w) k = Some emoji ->
          nth_error (snd drawn) k
          = Some (mkEmojiDraw emoji (GetSizeLarge env)
                    (rowLeft + Z.of_nat k * (_emojiSize w + stickerEmojiSkip))
                    (int_sub (Painted_top (fst drawn))
                             (int_mul (_emojiSize w) 2)))).
Proof.
  intros env skip w count rowWidth rowLeft Hne Hsize Hskip Hsum Hfit Hmax.
  destruct (paintEvent_source_quiet env w) as (source & w1 & E & [Hs _]).
  unfold sameShell in Hs.
  destruct Hs as (_ & Ha & Hh & _ & _ & _ & Hes & Hel & _ & Hsz).
  unfold runs, paintEvent_withEmoji, paintEvent.
  rewrite !(bind_some _ _ _ _ _ E).
  unfold hide, disableGifPauseReason. unfold_monad. cbv beta.
  rewrite Ha, Hh.
  destruct (negb (animating (_a_shown w)) && _hiding w).
  - eexists. eexists. split; [reflexivity |]. split; reflexivity.
  - eexists. eexists. split; [reflexivity |]. cbn [fst snd].
    split; [reflexivity |].
    rewrite Painted_top_draw, Hsz.
    pose proof (paintEvent_emoji_centred env skip
                  (paintEvent_height env (fst source) (snd source)) w1) as H.
    cbv zeta in H. rewrite Hel, Hes, Hsz in H.
    apply H; assumption.
Qed.

Lemma emoji_row_is_centred_witness :
  runs (paintEvent_withEmoji sampleEnv 4) shownSetSticker (fun drawn _ =>
    fst drawn = PaintedPixmap 372 325 (mkQPixmap 256 150 9) /\
    nth_error (snd drawn) 3 = Some (mkEmojiDraw 4 36 422 253)) /\
  runs (paintEvent_withEmoji sampleEnv 4) fadedOutSticker (fun drawn _ =>
    snd drawn = []).
Proof.
  split.
  - eapply runs_weaken;
      [apply (emoji_row_is_centred sampleEnv 4 shownSetSticker);
       vm_compute; first [reflexivity | discriminate] |].
    cbv beta. intros drawn w' [Hp H].
    assert (Hb : negb (animating (_a_shown shownSetSticker))
                 && _hiding shownSetSticker = false)
      by (vm_compute; reflexivity).
    rewrite Hb in H. destruct H as (_ & _ & Hnth).
    assert (Ep : paintEvent sampleEnv shownSetSticker
                 = Some (PaintedPixmap 372 325 (mkQPixmap 256 150 9),
                         after (paintEvent sampleEnv) shownSetSticker))
      by (vm_compute; reflexivity).
    rewrite Ep in Hp. injection Hp as Hfst _.
    split; [symmetry; exact Hfst |].
    rewrite (Hnth 3%nat 4) by (vm_compute; reflexivity).
    rewrite <- Hfst. vm_compute. reflexivity.
  - eapply runs_weaken;
      [apply (emoji_row_is_centred sampleEnv 4 fadedOutSticker);
       vm_compute; first [reflexivity | discriminate] |].
    cbv beta. intros drawn w' [_ H].
    assert (Hb : negb (animating (_a_shown fadedOutSticker))
                 && _hiding fadedOutSticker = true)
      by (vm_compute; reflexivity).
    rewrite Hb in H. exact H.
Defined.

(** ** The cache status *)

Lemma CacheStatus_rank_thumb (c : CacheStatus) :
  c <> CacheLoaded -> CacheStatus_rank c <= CacheStatus_rank CacheThumbLoaded.
Proof. destruct c; simpl; intros H; try lia. congruence. Qed.

Lemma CacheStatus_rank_loaded (c : CacheStatus) :
  CacheStatus_rank c <= CacheStatus_rank CacheLoaded.
Proof. destruct c; simpl; lia. Qed.

Lemma CacheStatus_not_loaded (c : CacheStatus) :
  negb (CacheStatus_eqb c CacheLoaded) = true -> c <> CacheLoaded.
Proof. destruct c; simpl; congruence. Qed.

Ltac status_clash :=
  let E := fresh in
  intros E; rewrite <- E in *; simpl in *; discriminate.

Ltac status_cases :=
  first
    [ split; [lia | split; [reflexivity | congruence]]
    | split; [first [apply CacheStatus_rank_loaded
                    | apply CacheStatus_rank_thumb; first
                        [assumption
                        | apply CacheStatus_not_loaded; assumption]]
             | split; [status_clash | reflexivity]] ].

(** X18. currentImage only improves the cache: the status never moves
    back (nothing, blurred thumbnail, sharp image), and the cached
    pixmap changes only together with the status, in which case the new
    pixmap is what the call returns.  For a document that is not a
    sticker this needs the status not to be CacheLoaded, since that
    branch only compares with CacheThumbLoaded. *)
Theorem currentImage_cache_only_improves :
  forall (env : Env) (w : MediaPreviewWidget),
    (forall d, _document w = Some d -> sticker d = None ->
               _cacheStatus w <> CacheLoaded) ->
    runs (currentImage env) w (fun pixmap w' =>
      CacheStatus_rank (_cacheStatus w) <= CacheStatus_rank (_cacheStatus w') /\
      (_cacheStatus w' = _cacheStatus w -> _cache w' = _cache w) /\
      (_cacheStatus w' <> _cacheStatus w -> pixmap = _cache w')).
Proof.
  intros env w Hanim.
  unfold currentImage. apply runs_bind, runs_gets. apply runs_bind, runs_gets.
  destruct (_document w) as [d|] eqn:Hd.
  - destruct (sticker d) as [st|] eqn:Hst.
    + unfold currentImage_sticker, setupLottie, cachePix, cachePixBlurred.
      wp_with known_size; try congruence; simpl in *; status_cases.
    + pose proof (Hanim d eq_refl Hst) as Hnot.
      unfold currentImage_animation, cachePixBlurred.
      wp_with known_size; try congruence; simpl in *; status_cases.
  - destruct (_photo w) as [p|] eqn:Hp.
    + unfold currentImage_photo, cachePix, cachePixBlurred.
      wp_with known_size; try congruence; simpl in *; status_cases.
    + wp_with no_calls. status_cases.
Qed.

Lemma currentImage_cache_only_improves_witness :
  CacheStatus_rank
    (_cacheStatus
       (after (showPreview_document sampleEnv 1 sampleAnimation) sampleWidget))
  <= CacheStatus_rank
       (_cacheStatus
          (after (currentImage sampleEnv)
             (after (showPreview_document sampleEnv 1 sampleAnimation)
                    sampleWidget))).
Proof.
  destruct (currentImage_cache_only_improves sampleEnv
              (after (showPreview_document sampleEnv 1 sampleAnimation)
                     sampleWidget))
    as (pixmap & w' & E & Hrank & _).
  - intros d _ _. vm_compute. discriminate.
  - unfold after at 2. rewrite E. exact Hrank.
Defined.
